(** * Credential store of the Move CLI ([move-cli/src/login/cli.rs])

    A shallow embedding of [handle_login_commands], [save_credential] and
    [set_permissions]: the token prompt loop over standard input, the
    resolution of the Move home directory from the environment, and the
    read-merge-write of [credential.toml] followed by the permission change;
    and the unit tests' helper [setup_move_home].

    The file system is a map from paths to files (contents, permission bits,
    owner) plus a set of directories; every [std::fs] primitive the code
    calls is modelled with the POSIX error it raises.  The TOML codec of
    [toml_edit::easy] ([str::parse::<Value>] and [Value::to_string]) is a
    library, not code of this repository: the model takes it as two
    parameters [parse] and [render]. *)

From Stdlib Require Import String Ascii ZArith Lia.
From stdpp Require Import base gmap strings list pretty.

Open Scope Z_scope.
Local Set Warnings "-register-all".

(* ------------------------------------------------------------------ *)
(** ** TOML values ([toml_edit::easy::Value]) *)

Inductive Value : Type :=
| VString (s : string)
| VInteger (z : Z)
| VFloat (repr : string)
| VBoolean (b : bool)
| VDatetime (repr : string)
| VArray (xs : list Value)
| VTable (m : list (string * Value)).

(** [toml_edit::easy::map::Map], a map with unique keys; as an association
    list, [get] returns the first binding of a key. *)
Fixpoint map_get (k : string) (m : list (string * Value)) : option Value :=
  match m with
  | [] => None
  | (k', v) :: m' => if String.eqb k k' then Some v else map_get k m'
  end.

(** Assignment through [get_mut]: the first binding of [k] is overwritten. *)
Fixpoint map_set_first (k : string) (v : Value) (m : list (string * Value))
    : list (string * Value) :=
  match m with
  | [] => []
  | (k', v') :: m' =>
      if String.eqb k k' then (k', v) :: m' else (k', v') :: map_set_first k v m'
  end.

(** [Map::insert]: replaces the value of an existing key in place,
    otherwise adds the key at the end. *)
Definition map_insert (k : string) (v : Value) (m : list (string * Value))
    : list (string * Value) :=
  match map_get k m with
  | Some _ => map_set_first k v m
  | None => m ++ [(k, v)]
  end.

(** [Value::as_table_mut]. *)
Definition as_table (v : Value) : option (list (string * Value)) :=
  match v with VTable m => Some m | _ => None end.

(** The merge step of [save_credential] (lines 86-101).  [None] is the panic
    of one of the [as_table_mut().unwrap()] calls. *)
Definition merge_token (toml : Value) (token : string) : option Value :=
  match as_table toml with
  | None => None
  | Some top =>
      match map_get "registry" top with
      | Some registry =>
          match as_table registry with
          | None => None
          | Some reg =>
              match map_get "token" reg with
              | Some _ =>
                  Some (VTable (map_set_first "registry"
                          (VTable (map_set_first "token" (VString token) reg)) top))
              | None =>
                  Some (VTable (map_set_first "registry"
                          (VTable (map_insert "token" (VString token) reg)) top))
              end
          end
      | None =>
          Some (VTable (map_insert "registry"
                  (VTable (map_insert "token" (VString token) [])) top))
      end
  end.

(* ------------------------------------------------------------------ *)
(** ** Errors *)

(** The [std::io::Error]s the file-system primitives can raise. *)
Inductive io_error : Type :=
| PermissionDenied
| OperationNotPermitted
| NotFound
| AlreadyExists
| NotADirectory
| IsADirectory
| InvalidData.  (** [read_line] on bytes that are not UTF-8 *)

(** [Display] of an io error. *)
Definition io_error_text (e : io_error) : string :=
  match e with
  | PermissionDenied => "Permission denied (os error 13)"
  | OperationNotPermitted => "Operation not permitted (os error 1)"
  | NotFound => "No such file or directory (os error 2)"
  | AlreadyExists => "File exists (os error 17)"
  | NotADirectory => "Not a directory (os error 20)"
  | IsADirectory => "Is a directory (os error 21)"
  | InvalidData => "stream did not contain valid UTF-8"
  end.

Definition quote : string := String "034"%char EmptyString.

Definition os_debug (code kind msg : string) : string :=
  ("Os { code: " ++ code ++ ", kind: " ++ kind ++ ", message: "
    ++ quote ++ msg ++ quote ++ " }")%string.

(** [Debug] of an io error, which [.expect] prints. *)
Definition io_error_debug (e : io_error) : string :=
  match e with
  | PermissionDenied => os_debug "13" "PermissionDenied" "Permission denied"
  | OperationNotPermitted => os_debug "1" "PermissionDenied" "Operation not permitted"
  | NotFound => os_debug "2" "NotFound" "No such file or directory"
  | AlreadyExists => os_debug "17" "AlreadyExists" "File exists"
  | NotADirectory => os_debug "20" "NotADirectory" "Not a directory"
  | IsADirectory => os_debug "21" "IsADirectory" "Is a directory"
  | InvalidData =>
      ("Error { kind: InvalidData, message: " ++ quote
        ++ "stream did not contain valid UTF-8" ++ quote ++ " }")%string
  end.

(** [anyhow::Error] values produced by the code: an io error converted by
    [?], a [bail!] message, or a parse error with its context. *)
Inductive error : Type :=
| EIo (e : io_error)
| EMsg (msg : string)
| EParse (cause : string).

Definition error_text (e : error) : string :=
  match e with
  | EIo e => io_error_text e
  | EMsg m => m
  | EParse _ => "could not parse input as TOML"
  end.

(* ------------------------------------------------------------------ *)
(** ** File system and process *)

Record file : Type := mkFile {
  contents : string;
  mode : Z;     (** permission bits, e.g. [0o600 = 384] *)
  owner : Z     (** owning uid *)
}.

Record fs : Type := mkFs {
  dirs : gset string;
  files : gmap string file
}.

(** The process: its uid, umask, whether it runs on a unix target
    ([#[cfg(unix)]]), and its environment variables. *)
Record ctx : Type := mkCtx {
  uid : Z;
  umask : Z;
  unix : bool;
  env : gmap string string
}.

(** Permission checks: root passes; the owner uses the user bits; anybody
    else uses the other bits (groups are not modelled). *)
Definition can_read (c : ctx) (f : file) : bool :=
  (uid c =? 0) || (if uid c =? owner f then Z.testbit (mode f) 8 else Z.testbit (mode f) 2).

Definition can_write (c : ctx) (f : file) : bool :=
  (uid c =? 0) || (if uid c =? owner f then Z.testbit (mode f) 7 else Z.testbit (mode f) 1).

(** Mode of a file created by [open(O_CREAT, 0o666)] under the umask. *)
Definition new_file_mode (c : ctx) : Z := Z.land 438 (Z.lnot (umask c)).

(** Result of a primitive: a failing primitive leaves the state unchanged. *)
Inductive io_res (A : Type) : Type :=
| IOk (a : A) (s : fs)
| IErr (e : io_error).
Arguments IOk {A} a s.
Arguments IErr {A} e.

(** The directories [create_dir_all p] makes: every non-empty prefix of [p]
    that ends before a ['/'], then [p] itself. *)
Fixpoint chain_go (acc : string) (p : string) : list string :=
  match p with
  | EmptyString => []
  | String ch rest =>
      (if Ascii.eqb ch "/"%char && negb (String.eqb acc "") then [acc] else [])
        ++ chain_go (acc ++ String ch EmptyString)%string rest
  end.

Definition dir_chain (p : string) : list string :=
  if String.eqb p "" then [] else chain_go "" p ++ [p].

(** [std::fs::create_dir_all]: [Ok] on the empty path; fails with
    [AlreadyExists] if [p] is a file and [NotADirectory] if one of its
    parents is; otherwise creates every missing directory of the chain. *)
Definition create_dir_all (c : ctx) (p : string) (s : fs) : io_res unit :=
  if String.eqb p "" then IOk tt s
  else if bool_decide (is_Some (files s !! p)) then IErr AlreadyExists
  else if existsb (fun d => bool_decide (is_Some (files s !! d))) (dir_chain p)
  then IErr NotADirectory
  else IOk tt (mkFs (dirs s ∪ list_to_set (dir_chain p)) (files s)).

(** [Path::exists]. *)
Definition path_exists (p : string) (s : fs) : bool :=
  bool_decide (p ∈ dirs s) || bool_decide (is_Some (files s !! p)).

(** [File::create]: create (or truncate) a file for writing. *)
Definition file_create (c : ctx) (p : string) (s : fs) : io_res unit :=
  if bool_decide (p ∈ dirs s) then IErr IsADirectory
  else match files s !! p with
       | Some f =>
           if can_write c f
           then IOk tt (mkFs (dirs s) (<[p := mkFile "" (mode f) (owner f)]> (files s)))
           else IErr PermissionDenied
       | None =>
           IOk tt (mkFs (dirs s) (<[p := mkFile "" (new_file_mode c) (uid c)]> (files s)))
       end.

(** [fs::read_to_string]. *)
Definition read_to_string (c : ctx) (p : string) (s : fs) : io_res string :=
  if bool_decide (p ∈ dirs s) then IErr IsADirectory
  else match files s !! p with
       | None => IErr NotFound
       | Some f => if can_read c f then IOk (contents f) s else IErr PermissionDenied
       end.

(** [fs::write]: [File::create] then [write_all]; the whole contents are
    replaced, mode and owner of an existing file are kept. *)
Definition fs_write (c : ctx) (p : string) (data : string) (s : fs) : io_res unit :=
  if bool_decide (p ∈ dirs s) then IErr IsADirectory
  else match files s !! p with
       | Some f =>
           if can_write c f
           then IOk tt (mkFs (dirs s) (<[p := mkFile data (mode f) (owner f)]> (files s)))
           else IErr PermissionDenied
       | None =>
           IOk tt (mkFs (dirs s) (<[p := mkFile data (new_file_mode c) (uid c)]> (files s)))
       end.

(** [File::open] (read only); the handle is the path of the open file. *)
Definition file_open (c : ctx) (p : string) (s : fs) : io_res string :=
  if bool_decide (p ∈ dirs s) then IErr IsADirectory
  else match files s !! p with
       | None => IErr NotFound
       | Some f => if can_read c f then IOk p s else IErr PermissionDenied
       end.

(** [set_permissions] (lines 110-124): on unix, [file.metadata()] then
    [file.set_permissions] with the new mode, i.e. [fchmod], which only the
    owner or root may do; elsewhere a no-op. *)
Definition set_permissions (c : ctx) (handle : string) (m : Z) (s : fs) : io_res unit :=
  if unix c then
    match files s !! handle with
    | None => IErr NotFound
    | Some f =>
        if (uid c =? 0) || (uid c =? owner f)
        then IOk tt (mkFs (dirs s) (<[handle := mkFile (contents f) m (owner f)]> (files s)))
        else IErr OperationNotPermitted
    end
  else IOk tt s.

(* ------------------------------------------------------------------ *)
(** ** The command monad: state, [anyhow::Result] errors and panics *)

Inductive outcome (A : Type) : Type :=
| Ok (a : A) (s : fs)
| Err (e : error) (s : fs)
| Panic (msg : string) (s : fs).
Arguments Ok {A} a s.
Arguments Err {A} e s.
Arguments Panic {A} msg s.

Definition M (A : Type) : Type := fs -> outcome A.

Definition ret {A} (a : A) : M A := fun s => Ok a s.

Definition bind {A B} (m : M A) (k : A -> M B) : M B :=
  fun s => match m s with
           | Ok a s' => k a s'
           | Err e s' => Err e s'
           | Panic msg s' => Panic msg s'
           end.

Notation "x <- m ;; k" := (bind m (fun x => k))
  (at level 100, m at next level, right associativity).

(** The [?] operator on an [io::Result]. *)
Definition lift_io {A} (m : fs -> io_res A) : M A :=
  fun s => match m s with IOk a s' => Ok a s' | IErr e => Err (EIo e) s end.

(** [.expect(msg)] on an [io::Result]: the message, then the error's
    [Debug] form. *)
Definition expect_io {A} (msg : string) (m : fs -> io_res A) : M A :=
  fun s => match m s with
           | IOk a s' => Ok a s'
           | IErr e => Panic (msg ++ ": " ++ io_error_debug e)%string s
           end.

Definition unwrap_none_msg : string := "called `Option::unwrap()` on a `None` value".
Definition unwrap_env_msg : string := "called `Result::unwrap()` on an `Err` value: NotPresent".

(** [.unwrap()] on an [Option]. *)
Definition unwrap {A} (o : option A) : M A :=
  fun s => match o with Some a => Ok a s | None => Panic unwrap_none_msg s end.

Definition panic {A} (msg : string) : M A := fun s => Panic msg s.

Record TestMode : Type := mkTestMode { test_path : string }.

(** Lines 54-67 of [save_credential]: the Move home directory, or the
    panic message. *)
Definition resolve_home (c : ctx) (test_mode : option TestMode) : string + string :=
  match test_mode with
  | Some tm =>
      match env c !! "TEST_MOVE_HOME" with
      | None => inr unwrap_env_msg
      | Some move_home =>
          if negb (String.eqb (test_path tm) "")
          then inl (move_home ++ test_path tm)%string
          else inl move_home
      end
  | None =>
      match env c !! "MOVE_HOME" with
      | Some move_home => inl move_home
      | None =>
          match env c !! "HOME" with
          | Some home => inl (home ++ "/.move")%string
          | None => inr "env var 'HOME' must be set: NotPresent"
          end
      end
  end.

Definition credential_path_of (move_home : string) : string :=
  (move_home ++ "/credential.toml")%string.

(** The primitives key files and directories by their path strings.  The
    kernel resolves a path component by component, so the strings name the
    files the code opens when paths are canonical: absolute, with no empty,
    ["."] or [".."] component and no trailing slash ([/home/u/.move], not
    [/home/u/.move/] or [/home//u/.move]). *)
Fixpoint path_components_go (acc : string) (p : string) : list string :=
  match p with
  | EmptyString => [acc]
  | String ch rest =>
      if Ascii.eqb ch "/"%char then acc :: path_components_go "" rest
      else path_components_go (acc ++ String ch EmptyString)%string rest
  end.

Definition canonical_path (p : string) : bool :=
  match p with
  | String ch rest =>
      Ascii.eqb ch "/"%char
      && forallb (fun comp => negb (String.eqb comp "") && negb (String.eqb comp ".")
                              && negb (String.eqb comp ".."))
                 (path_components_go "" rest)
  | EmptyString => false
  end.

(** A state whose directories and files are all named by canonical paths. *)
Definition fs_canonical (s : fs) : bool :=
  forallb canonical_path (elements (dirs s))
  && forallb (fun kv => canonical_path (fst kv)) (map_to_list (files s)).

(* ------------------------------------------------------------------ *)
(** ** The token prompt of [handle_login_commands] (lines 24-43) *)

Definition retry_msg : string := "Invalid API Token. Try again!".

(** What one [io::stdin().read_line] call yields: the bytes of one line
    (with its terminator, if any) or an io error.  When the remaining input
    is empty the stream is at end of file: [read_line] returns [Ok(0)] and
    leaves the buffer unchanged. *)
Inductive read_result : Type :=
| ReadOk (chunk : string)
| ReadErr (e : io_error).

Record pstate : Type := mkP {
  line : string;
  stdin : list read_result;
  stdout : list string
}.

(** [read_line(&mut line)]: appends the next chunk to the buffer. *)
Definition read_line (buf : string) (ins : list read_result)
    : (string * list read_result) + io_error :=
  match ins with
  | [] => inl (buf, [])
  | ReadOk chunk :: rest => inl ((buf ++ chunk)%string, rest)
  | ReadErr e :: _ => inr e
  end.

(** [if let Some(ch) = line.chars().next_back() { line.pop(); }] *)
Fixpoint pop_if (ch : ascii) (s : string) : string :=
  match s with
  | EmptyString => EmptyString
  | String a EmptyString => if Ascii.eqb a ch then EmptyString else s
  | String a rest => String a (pop_if ch rest)
  end.

(** Lines 28-33: pop a trailing ['\n'], then a trailing ['\r']. *)
Definition strip_line (l : string) : string :=
  pop_if "013"%char (pop_if "010"%char l).

Inductive step_res : Type :=
| Continue (st : pstate)
| Done (r : string + error) (out : list string).

(** One iteration of the [loop]. *)
Definition prompt_step (st : pstate) : step_res :=
  match read_line (line st) (stdin st) with
  | inr e => Done (inr (EMsg ("Error reading file: " ++ io_error_text e)%string)) (stdout st)
  | inl (buf, rest) =>
      let l := strip_line buf in
      if negb (String.eqb l "") then Done (inl l) (stdout st)
      else Continue (mkP l rest (stdout st ++ [retry_msg]))
  end.

(** At most [fuel] iterations; [inl] is the state of a loop still running. *)
Fixpoint prompt_loop (fuel : nat) (st : pstate)
    : pstate + ((string + error) * list string) :=
  match fuel with
  | O => inl st
  | S n =>
      match prompt_step st with
      | Done r out => inr (r, out)
      | Continue st' => prompt_loop n st'
      end
  end.

Section Codec.
(** The TOML codec of [toml_edit::easy]: [parse] is [str::parse::<Value>]
    ([inr] carries the syntax error), [render] is [Value::to_string]. *)
Context (parse : string -> Value + string) (render : Value -> string).

(** [save_credential] (lines 53-108). *)
Definition save_credential (c : ctx) (token : string) (test_mode : option TestMode)
    : M unit :=
  move_home <- (fun s => match resolve_home c test_mode with
                         | inl h => Ok h s
                         | inr msg => Panic msg s
                         end) ;;
  _ <- lift_io (create_dir_all c move_home) ;;
  let credential_path := credential_path_of move_home in
  _ <- (fun s => if negb (path_exists credential_path s)
                 then lift_io (file_create c credential_path) s
                 else Ok tt s) ;;
  old_contents <- (fun s => match read_to_string c credential_path s with
                            | IOk contents s' => Ok contents s'
                            | IErr e =>
                                Err (EMsg ("Error reading input: " ++ io_error_text e)%string) s
                            end) ;;
  toml <- (fun s => match parse old_contents with
                    | inl v => Ok v s
                    | inr e => Err (EParse e) s
                    end) ;;
  toml' <- unwrap (merge_token toml token) ;;
  let new_contents := render toml' in
  _ <- expect_io "Unable to write file" (fs_write c credential_path new_contents) ;;
  file <- lift_io (file_open c credential_path) ;;
  _ <- lift_io (set_permissions c file 384) ;;
  ret tt.

(** [handle_login_commands] (lines 13-51), with the prompt loop run for at
    most [fuel] iterations ([None]: still looping).  [debug_assertions]
    selects the URL as [cfg!(debug_assertions)] does. *)
Definition handle_login_commands (fuel : nat) (c : ctx) (debug_assertions : bool)
    (test_path : option string) (ins : list read_result) (s : fs)
    : option (outcome unit * list string) :=
  let url := if debug_assertions then "https://movey-app-staging.herokuapp.com"
             else "https://movey.net" in
  let out0 := [("Please paste the API Token found on " ++ url ++ "/settings/tokens below")%string] in
  match prompt_loop fuel (mkP "" ins out0) with
  | inl _ => None
  | inr (inr e, out) => Some (Err e s, out)
  | inr (inl token, out) =>
      let test_mode := match test_path with
                       | Some p => Some (mkTestMode p)
                       | None => None
                       end in
      match save_credential c token test_mode s with
      | Ok _ s' => Some (Ok tt s', out ++ ["Token for Movey saved."])
      | r => Some (r, out)
      end
  end.

End Codec.

(* ------------------------------------------------------------------ *)
(** ** A sample TOML codec for concrete runs

    [toml_edit] is not part of this repository; to run the model on
    concrete files we instantiate [parse] and [render] with a small codec
    for the documents used below: bare keys, basic strings without escapes,
    and one level of [[section]] tables.  On these inputs it agrees with
    [toml_edit::easy] ([""] parses to the empty table, [Value::to_string] of
    [{registry = {token = "t"}}] is [[registry]\ntoken = "t"\n]). *)

Definition dq : string := String "034"%char EmptyString.
Definition nl : string := String "010"%char EmptyString.

Fixpoint render_inline (v : Value) : string :=
  match v with
  | VString s => (dq ++ s ++ dq)%string
  | VInteger z => pretty z
  | VFloat r => r
  | VBoolean b => if b then "true" else "false"
  | VDatetime r => r
  | VArray xs =>
      ("[" ++ String.concat ", " (map render_inline xs) ++ "]")%string
  | VTable m =>
      ("{ " ++ String.concat ", "
                 (map (fun kv => (fst kv ++ " = " ++ render_inline (snd kv))%string) m)
            ++ " }")%string
  end.

Definition render_entries (m : list (string * Value)) : string :=
  String.concat "" (map (fun kv => (fst kv ++ " = " ++ render_inline (snd kv) ++ nl)%string) m).

Definition sample_render (v : Value) : string :=
  match v with
  | VTable top =>
      let plain := List.filter (fun kv => match snd kv with VTable _ => false | _ => true end) top in
      let sections := omap (fun kv => match snd kv with
                                      | VTable m => Some (fst kv, m)
                                      | _ => None
                                      end) top in
      (render_entries plain ++
       String.concat nl
         (map (fun sm => ("[" ++ fst sm ++ "]" ++ nl ++ render_entries (snd sm))%string) sections))%string
  | _ => render_inline v
  end.

Fixpoint split_lines_go (acc : string) (s : string) : list string :=
  match s with
  | EmptyString => [acc]
  | String ch rest =>
      if Ascii.eqb ch "010"%char then acc :: split_lines_go "" rest
      else split_lines_go (acc ++ String ch EmptyString)%string rest
  end.

Fixpoint ltrim (s : string) : string :=
  match s with
  | String ch rest => if Ascii.eqb ch " "%char then ltrim rest else s
  | EmptyString => EmptyString
  end.

Definition trim (s : string) : string := String.rev (ltrim (String.rev (ltrim s))).

(** [[name]] *)
Definition header (l : string) : option string :=
  match l, String.rev l with
  | String a inner, String b _ =>
      if Ascii.eqb a "["%char && Ascii.eqb b "]"%char && negb (String.eqb l "[")
      then Some (trim (String.rev (match String.rev inner with
                                    | String _ r => r
                                    | EmptyString => EmptyString
                                    end)))
      else None
  | _, _ => None
  end.

Fixpoint split_eq (acc : string) (s : string) : option (string * string) :=
  match s with
  | EmptyString => None
  | String ch rest =>
      if Ascii.eqb ch "="%char then Some (acc, rest)
      else split_eq (acc ++ String ch EmptyString)%string rest
  end.

Fixpoint has_quote (s : string) : bool :=
  match s with
  | EmptyString => false
  | String ch rest => Ascii.eqb ch "034"%char || has_quote rest
  end.

(** [key = "value"] *)
Definition key_value (l : string) : option (string * Value) :=
  match split_eq "" l with
  | None => None
  | Some (k, v) =>
      let k := trim k in
      let v := trim v in
      match v, String.rev v with
      | String a inner, String b _ =>
          let body := String.rev (match String.rev inner with
                                  | String _ r => r
                                  | EmptyString => EmptyString
                                  end) in
          if Ascii.eqb a "034"%char && Ascii.eqb b "034"%char
             && negb (String.eqb v dq) && negb (has_quote body) && negb (String.eqb k "")
          then Some (k, VString body) else None
      | _, _ => None
      end
  end.

Fixpoint parse_lines (sec : option string) (ls : list string) (doc : list (string * Value))
    : Value + string :=
  match ls with
  | [] => inl (VTable doc)
  | l :: rest =>
      let l := trim l in
      if String.eqb l "" then parse_lines sec rest doc
      else match header l with
           | Some name =>
               match map_get name doc with
               | Some _ => inr "duplicate key"
               | None => parse_lines (Some name) rest (doc ++ [(name, VTable [])])
               end
           | None =>
               match key_value l with
               | None => inr "unsupported syntax"
               | Some (k, v) =>
                   match sec with
                   | None =>
                       match map_get k doc with
                       | Some _ => inr "duplicate key"
                       | None => parse_lines sec rest (doc ++ [(k, v)])
                       end
                   | Some name =>
                       match map_get name doc with
                       | Some (VTable m) =>
                           match map_get k m with
                           | Some _ => inr "duplicate key"
                           | None => parse_lines sec rest
                                       (map_set_first name (VTable (m ++ [(k, v)])) doc)
                           end
                       | _ => inr "unsupported syntax"
                       end
                   end
               end
           end
  end.

Definition sample_parse (s : string) : Value + string :=
  parse_lines None (split_lines_go "" s) [].

(* ------------------------------------------------------------------ *)
(** ** The token prompt as the spec describes it (section 4.1)

    "read exactly one line of input; strip a trailing newline and, if
    present, a trailing carriage return; if the resulting string is empty,
    emit a retry message and read again; any I/O error aborts with
    [Error reading file: <cause>]."  Lines as lists of characters. *)

Definition drop_last_if (ch : ascii) (cs : list ascii) : list ascii :=
  match List.rev cs with
  | c :: _ => if Ascii.eqb c ch then removelast cs else cs
  | [] => cs
  end.

Definition strip_spec (l : string) : string :=
  string_of_list_ascii
    (drop_last_if "013"%char (drop_last_if "010"%char (list_ascii_of_string l))).

(** The messages printed before the prompt ends and its result; [None]
    when the input runs out first. *)
Fixpoint token_prompt_spec (ins : list read_result)
    : list string * option (string + error) :=
  match ins with
  | [] => ([], None)
  | ReadErr e :: _ => ([], Some (inr (EMsg ("Error reading file: " ++ io_error_text e)%string)))
  | ReadOk l :: rest =>
      let tok := strip_spec l in
      if String.eqb tok "" then
        let (msgs, r) := token_prompt_spec rest in (retry_msg :: msgs, r)
      else ([], Some (inl tok))
  end.

Definition outcome_fs {A} (o : outcome A) : fs :=
  match o with Ok _ s | Err _ s | Panic _ s => s end.

(** Concrete processes and file systems for the runs below: user 1000 with
    umask [0o022] and [MOVE_HOME=/home/u/.move]. *)
Definition sample_ctx : ctx :=
  mkCtx 1000 18 true {[ "MOVE_HOME" := "/home/u/.move" ]}.

Definition sample_home : string := "/home/u/.move".

Definition sample_cred : string := "/home/u/.move/credential.toml".

(** No Move home yet. *)
Definition fs_fresh : fs := mkFs {[ "/home"; "/home/u" ]} ∅.

(** A zero-byte credential file owned by the user, with the given mode. *)
Definition fs_empty_file (m : Z) : fs :=
  mkFs {[ "/home"; "/home/u"; "/home/u/.move" ]} {[ sample_cred := mkFile "" m 1000 ]}.


(** A credential file whose [registry] key is a string. *)
Definition fs_registry_string : fs :=
  mkFs {[ "/home"; "/home/u"; "/home/u/.move" ]}
       {[ sample_cred := mkFile ("registry = " ++ dq ++ "x" ++ dq ++ nl)%string 384 1000 ]}.

(** The document [[registry]] with the single field [token = t]. *)
Definition token_doc (t : string) : Value :=
  VTable [("registry", VTable [("token", VString t)])].

(** A codec that knows only the empty file and the file written for
    [token_doc t]: enough to run [save_credential] twice on a fresh home. *)
Definition two_doc_parse (t : string) (s : string) : Value + string :=
  if String.eqb s "" then inl (VTable [])
  else if String.eqb s (sample_render (token_doc t)) then inl (token_doc t)
  else inr "unsupported syntax".

(** A carriage return, as a one-character string. *)
Definition cr : string := String "013"%char EmptyString.

(** A process whose [MOVE_HOME] is set to the empty string. *)
Definition empty_home_ctx : ctx := mkCtx 1000 18 true {[ "MOVE_HOME" := "" ]}.

(** A home whose credential file holds a top-level [version] entry. *)
Definition fs_version : fs :=
  mkFs {[ "/home"; "/home/u"; "/home/u/.move" ]}
       {[ sample_cred := mkFile ("version = " ++ dq ++ "1" ++ dq ++ nl)%string 384 1000 ]}.

(** A home whose credential file is not valid TOML. *)
Definition fs_bad_toml : fs :=
  mkFs {[ "/home"; "/home/u"; "/home/u/.move" ]} {[ sample_cred := mkFile "x" 384 1000 ]}.

(* ------------------------------------------------------------------ *)
(** ** The helper of the unit tests (lines 131-142)

    [setup_move_home test_path] with the current directory [cwd]
    ([env::current_dir().unwrap()], taken as given): sets [TEST_MOVE_HOME]
    to [cwd] and returns the home and credential path the test expects. *)
Definition setup_move_home (cwd : string) (c : ctx) (test_path : string)
    : ctx * (string * string) :=
  let c' := mkCtx (uid c) (umask c) (unix c) (<[ "TEST_MOVE_HOME" := cwd ]> (env c)) in
  let move_home := if negb (String.eqb test_path "") then (cwd ++ test_path)%string
                   else (cwd ++ "/test")%string in
  let credential_path := (move_home ++ "/credential.toml")%string in
  (c', (move_home, credential_path)).



(* ================================================================== *)
(** * Lemmas on the map operations *)

Lemma map_get_set_first_same (k : string) (v : Value) (m : list (string * Value)) :
  map_get k m <> None -> map_get k (map_set_first k v m) = Some v.
Proof.
  induction m as [|[k' v'] m IH]; simpl; [congruence|].
  destruct (String.eqb_spec k k'); simpl.
  - subst. rewrite String.eqb_refl. reflexivity.
  - intros H. destruct (String.eqb_spec k k'); [contradiction|]. auto.
Qed.

Lemma map_get_set_first_other (k k' : string) (v : Value) (m : list (string * Value)) :
  k' <> k -> map_get k' (map_set_first k v m) = map_get k' m.
Proof.
  intros Hne. induction m as [|[k0 v0] m IH]; simpl; [reflexivity|].
  destruct (String.eqb_spec k k0); simpl.
  - subst. destruct (String.eqb_spec k' k0); [contradiction|reflexivity].
  - rewrite IH. reflexivity.
Qed.

Lemma map_set_first_same (k : string) (v : Value) (m : list (string * Value)) :
  map_get k m = Some v -> map_set_first k v m = m.
Proof.
  induction m as [|[k0 v0] m IH]; simpl; [reflexivity|].
  destruct (String.eqb_spec k k0).
  - intros H. subst. congruence.
  - intros H. rewrite IH; auto.
Qed.

Lemma map_set_first_idem (k : string) (v : Value) (m : list (string * Value)) :
  map_set_first k v (map_set_first k v m) = map_set_first k v m.
Proof.
  induction m as [|[k0 v0] m IH]; simpl; [reflexivity|].
  destruct (String.eqb_spec k k0); simpl.
  - subst. rewrite String.eqb_refl. reflexivity.
  - destruct (String.eqb_spec k k0); [contradiction|]. rewrite IH. reflexivity.
Qed.

Lemma map_get_snoc_same (k : string) (v : Value) (m : list (string * Value)) :
  map_get k m = None -> map_get k (m ++ [(k, v)]) = Some v.
Proof.
  induction m as [|[k0 v0] m IH]; simpl.
  - rewrite String.eqb_refl. reflexivity.
  - destruct (String.eqb k k0); [congruence|]. auto.
Qed.

Lemma map_get_snoc_other (k k' : string) (v : Value) (m : list (string * Value)) :
  k' <> k -> map_get k' (m ++ [(k, v)]) = map_get k' m.
Proof.
  intros Hne. induction m as [|[k0 v0] m IH]; simpl.
  - destruct (String.eqb_spec k' k); [contradiction|reflexivity].
  - destruct (String.eqb k' k0); auto.
Qed.

(** The merge of a document that already holds the token changes nothing. *)
Lemma merge_token_idem (d d1 : Value) (t : string) :
  merge_token d t = Some d1 -> merge_token d1 t = Some d1.
Proof.
  unfold merge_token. destruct (as_table d) as [top|] eqn:Hd; [|discriminate].
  destruct (map_get "registry" top) as [registry|] eqn:Hr.
  - destruct (as_table registry) as [reg|] eqn:Hreg; [|discriminate].
    destruct (map_get "token" reg) as [tk|] eqn:Ht; intros H; injection H as <-; simpl.
    + rewrite map_get_set_first_same by congruence. simpl.
      rewrite map_get_set_first_same by congruence.
      rewrite map_set_first_idem, map_set_first_idem. reflexivity.
    + unfold map_insert at 2. rewrite Ht.
      rewrite map_get_set_first_same by congruence. simpl.
      unfold map_insert. rewrite Ht. rewrite map_get_snoc_same by assumption.
      rewrite (map_set_first_same "token" (VString t) (reg ++ _))
        by (apply map_get_snoc_same; assumption).
      rewrite map_set_first_idem. reflexivity.
  - intros H. injection H as <-. simpl. unfold map_insert. rewrite Hr. simpl.
    rewrite map_get_snoc_same by assumption. simpl.
    rewrite (map_set_first_same "registry" _ (top ++ _)) by (apply map_get_snoc_same; assumption).
    reflexivity.
Qed.

(* ================================================================== *)
(** * The merge step *)

(** C1: for a parsed document [VTable top], if [registry] is a table the
    merge sets its [token] field to the new token (whatever it held) and
    keeps every other field of the section and every other top-level entry;
    if there is no [registry] entry, it adds one holding only [token]. *)
Theorem merge_token_sets_registry_token (top : list (string * Value)) (t : string) :
  (forall reg, map_get "registry" top = Some (VTable reg) ->
     exists reg',
       merge_token (VTable top) t
         = Some (VTable (map_set_first "registry" (VTable reg') top))
       /\ map_get "token" reg' = Some (VString t)
       /\ (forall k, k <> "token" -> map_get k reg' = map_get k reg))
  /\ (map_get "registry" top = None ->
      merge_token (VTable top) t
        = Some (VTable (top ++ [("registry", VTable [("token", VString t)])]))).
Proof.
  split.
  - intros reg Hr. unfold merge_token. simpl. rewrite Hr. simpl.
    destruct (map_get "token" reg) as [tk|] eqn:Ht.
    + eexists. split; [reflexivity|]. split.
      * apply map_get_set_first_same. congruence.
      * intros k Hk. apply map_get_set_first_other. exact Hk.
    + eexists. split; [reflexivity|]. unfold map_insert. rewrite Ht. split.
      * apply map_get_snoc_same. exact Ht.
      * intros k Hk. apply map_get_snoc_other. exact Hk.
  - intros Hr. unfold merge_token. simpl. rewrite Hr. unfold map_insert. rewrite Hr.
    reflexivity.
Qed.

(** The field-preservation run of the spec (P2) on the sample codec. *)
Lemma merge_token_sets_registry_token_witness :
  map_get "registry" [("registry", VTable [("token", VString "old"); ("version", VString "0.0.0")])]
    = Some (VTable [("token", VString "old"); ("version", VString "0.0.0")])
  /\ exists reg',
       merge_token (VTable [("registry", VTable [("token", VString "old");
                                                  ("version", VString "0.0.0")])]) "new"
         = Some (VTable (map_set_first "registry" (VTable reg')
                           [("registry", VTable [("token", VString "old");
                                                 ("version", VString "0.0.0")])]))
       /\ map_get "token" reg' = Some (VString "new")
       /\ (forall k, k <> "token" ->
             map_get k reg' = map_get k [("token", VString "old"); ("version", VString "0.0.0")]).
Proof.
  split; [reflexivity|].
  apply (proj1 (merge_token_sets_registry_token _ "new")). reflexivity.
Defined.

(* ================================================================== *)
(** * Running [save_credential] step by step *)

Lemma read_to_string_ok (c : ctx) (p : string) (s s' : fs) (x : string) :
  read_to_string c p s = IOk x s' ->
  (p ∉ dirs s) /\ exists f, files s !! p = Some f /\ x = contents f.
Proof.
  unfold read_to_string. intros H.
  destruct (bool_decide (p ∈ dirs s)) eqn:Hd; [discriminate|].
  apply bool_decide_eq_false in Hd. split; [exact Hd|].
  destruct (files s !! p) as [f|]; [|discriminate].
  destruct (can_read c f); [|discriminate]. injection H as <- _. eauto.
Qed.


Lemma read_to_string_state (c : ctx) (p : string) (s s' : fs) (x : string) :
  read_to_string c p s = IOk x s' -> s' = s.
Proof.
  unfold read_to_string. destruct (bool_decide _); [discriminate|].
  destruct (files s !! p); [|discriminate]. destruct (can_read c f); congruence.
Qed.

Lemma file_open_state (c : ctx) (p : string) (s s' : fs) (x : string) :
  file_open c p s = IOk x s' -> s' = s /\ x = p.
Proof.
  unfold file_open. destruct (bool_decide _); [discriminate|].
  destruct (files s !! p); [|discriminate]. destruct (can_read c f); [|discriminate].
  intros H. injection H. auto.
Qed.

(** The successful run of [save_credential], step by step. *)
Lemma save_credential_ok_inv parse render (c : ctx) (t : string) tm (s s' : fs) (u : unit) :
  save_credential parse render c t tm s = Ok u s' ->
  exists h s1 s2 old d d1 s4,
    resolve_home c tm = inl h
    /\ create_dir_all c h s = IOk tt s1
    /\ ((path_exists (credential_path_of h) s1 = true /\ s2 = s1)
        \/ (path_exists (credential_path_of h) s1 = false
            /\ file_create c (credential_path_of h) s1 = IOk tt s2))
    /\ read_to_string c (credential_path_of h) s2 = IOk old s2
    /\ parse old = inl d
    /\ merge_token d t = Some d1
    /\ fs_write c (credential_path_of h) (render d1) s2 = IOk tt s4
    /\ file_open c (credential_path_of h) s4 = IOk (credential_path_of h) s4
    /\ set_permissions c (credential_path_of h) 384 s4 = IOk tt s'.
Proof.
  unfold save_credential, bind, lift_io, ret, unwrap, expect_io.
  destruct (resolve_home c tm) as [h|msg]; [|discriminate].
  destruct (create_dir_all c h s) as [[] s1|e] eqn:Hc; [|discriminate].
  set (p := credential_path_of h).
  destruct (path_exists p s1) eqn:He; simpl.
  - destruct (read_to_string c p s1) as [old s2|e] eqn:Hr; [|discriminate].
    pose proof (read_to_string_state _ _ _ _ _ Hr) as ->.
    destruct (parse old) as [d|e] eqn:Hp; [|discriminate].
    destruct (merge_token d t) as [d1|] eqn:Hm; [|discriminate].
    destruct (fs_write c p (render d1) s1) as [[] s4|e] eqn:Hw; [|discriminate].
    destruct (file_open c p s4) as [f s5|e] eqn:Ho; [|discriminate].
    destruct (file_open_state _ _ _ _ _ Ho) as [-> ->].
    destruct (set_permissions c p 384 s4) as [[] s6|e] eqn:Hs; [|discriminate].
    intros H. injection H as <- <-.
    exists h, s1, s1, old, d, d1, s4. repeat split; auto.
  - destruct (file_create c p s1) as [[] s2|e] eqn:Hf; [|discriminate].
    destruct (read_to_string c p s2) as [old s3|e] eqn:Hr; [|discriminate].
    pose proof (read_to_string_state _ _ _ _ _ Hr) as ->.
    destruct (parse old) as [d|e] eqn:Hp; [|discriminate].
    destruct (merge_token d t) as [d1|] eqn:Hm; [|discriminate].
    destruct (fs_write c p (render d1) s2) as [[] s4|e] eqn:Hw; [|discriminate].
    destruct (file_open c p s4) as [f s5|e] eqn:Ho; [|discriminate].
    destruct (file_open_state _ _ _ _ _ Ho) as [-> ->].
    destruct (set_permissions c p 384 s4) as [[] s6|e] eqn:Hs; [|discriminate].
    intros H. injection H as <- <-.
    exists h, s1, s2, old, d, d1, s4. repeat split; auto.
Qed.

Lemma create_dir_all_ok (c : ctx) (h : string) (s s1 : fs) (u : unit) :
  create_dir_all c h s = IOk u s1 ->
  files s1 = files s
  /\ (forall d, d ∈ dirs s1 <-> d ∈ dirs s \/ In d (dir_chain h))
  /\ (forall d, In d (dir_chain h) -> files s !! d = None).
Proof.
  unfold create_dir_all. destruct (String.eqb_spec h "") as [->|Hh].
  - intros H. injection H as _ <-. split; [reflexivity|]. split.
    + intros d. simpl. tauto.
    + intros d [].
  - destruct (bool_decide _); [discriminate|].
    destruct (existsb _ _) eqn:Hex; [discriminate|].
    intros H. injection H as _ <-. simpl. split; [reflexivity|]. split.
    + intros d. rewrite elem_of_union, elem_of_list_to_set, list_elem_of_In. tauto.
    + intros d Hd. destruct (files s !! d) eqn:E; [|reflexivity].
      exfalso. assert (Htrue : existsb (fun d => bool_decide (is_Some (files s !! d)))
                                 (dir_chain h) = true).
      { apply existsb_exists. exists d. split; [exact Hd|].
        apply bool_decide_eq_true. rewrite E. eauto. }
      congruence.
Qed.

Lemma file_create_ok (c : ctx) (p : string) (s s' : fs) (u : unit) :
  file_create c p s = IOk u s' ->
  (p ∉ dirs s) /\ dirs s' = dirs s /\
  match files s !! p with
  | Some f => can_write c f = true /\ files s' = <[p := mkFile "" (mode f) (owner f)]> (files s)
  | None => files s' = <[p := mkFile "" (new_file_mode c) (uid c)]> (files s)
  end.
Proof.
  unfold file_create. destruct (bool_decide (p ∈ dirs s)) eqn:Hd; [discriminate|].
  apply bool_decide_eq_false in Hd.
  destruct (files s !! p) as [f|].
  - destruct (can_write c f) eqn:Hw; [|discriminate]. intros H. injection H as _ <-. auto.
  - intros H. injection H as _ <-. auto.
Qed.

Lemma fs_write_ok (c : ctx) (p data : string) (s s' : fs) (u : unit) :
  fs_write c p data s = IOk u s' ->
  (p ∉ dirs s) /\ dirs s' = dirs s /\
  match files s !! p with
  | Some f => can_write c f = true /\ files s' = <[p := mkFile data (mode f) (owner f)]> (files s)
  | None => files s' = <[p := mkFile data (new_file_mode c) (uid c)]> (files s)
  end.
Proof.
  unfold fs_write. destruct (bool_decide (p ∈ dirs s)) eqn:Hd; [discriminate|].
  apply bool_decide_eq_false in Hd.
  destruct (files s !! p) as [f|].
  - destruct (can_write c f) eqn:Hw; [|discriminate]. intros H. injection H as _ <-. auto.
  - intros H. injection H as _ <-. auto.
Qed.

Lemma set_permissions_ok (c : ctx) (p : string) (m : Z) (s s' : fs) (u : unit) :
  set_permissions c p m s = IOk u s' ->
  if unix c then
    exists f, files s !! p = Some f /\ (uid c = 0 \/ uid c = owner f)
      /\ dirs s' = dirs s /\ files s' = <[p := mkFile (contents f) m (owner f)]> (files s)
  else s' = s.
Proof.
  unfold set_permissions. destruct (unix c).
  - destruct (files s !! p) as [f|]; [|discriminate].
    destruct ((uid c =? 0) || (uid c =? owner f)) eqn:Ho; [|discriminate].
    intros H. injection H as _ <-. exists f. simpl. repeat split; auto.
    apply orb_true_iff in Ho. destruct Ho as [Ho|Ho]; apply Z.eqb_eq in Ho; auto.
  - intros H. injection H as _ <-. reflexivity.
Qed.

Lemma path_exists_false (p : string) (s : fs) :
  path_exists p s = false -> (p ∉ dirs s) /\ files s !! p = None.
Proof.
  unfold path_exists. intros H. apply orb_false_iff in H as [H1 H2].
  apply bool_decide_eq_false in H1, H2. split; [exact H1|].
  destruct (files s !! p); [exfalso; apply H2; eauto|reflexivity].
Qed.

(* ================================================================== *)
(** * Permissions after a successful run *)

(** C6: after a successful [save_credential], the credential file has mode
    [0o600] on unix, whatever its mode was before; elsewhere the permission
    step changes nothing, so the file keeps the mode it had (or the mode it
    was created with). *)
Theorem save_credential_sets_mode_600 parse render (c : ctx) (t : string) tm (s s' : fs)
    (h : string) :
  resolve_home c tm = inl h ->
  save_credential parse render c t tm s = Ok tt s' ->
  exists f, files s' !! credential_path_of h = Some f
    /\ (unix c = true -> mode f = 384)
    /\ (unix c = false ->
        mode f = match files s !! credential_path_of h with
                 | Some f0 => mode f0
                 | None => new_file_mode c
                 end).
Proof.
  intros Hres Hsave.
  destruct (save_credential_ok_inv _ _ _ _ _ _ _ _ Hsave)
    as (h' & s1 & s2 & old & d & d1 & s4 & Hres' & Hc & He & Hr & Hp & Hm & Hw & Ho & Hs).
  rewrite Hres in Hres'. injection Hres' as <-.
  set (p := credential_path_of h) in *.
  destruct (create_dir_all_ok _ _ _ _ _ Hc) as (Hfs1 & _ & _).
  destruct (fs_write_ok _ _ _ _ _ _ Hw) as (_ & _ & Hw').
  assert (Hmode2 : match files s2 !! p with Some f => mode f | None => new_file_mode c end
                   = match files s !! p with Some f0 => mode f0 | None => new_file_mode c end).
  { destruct He as [[_ ->]|[Hex Hf]].
    - rewrite Hfs1. reflexivity.
    - destruct (path_exists_false _ _ Hex) as [_ Hn].
      destruct (file_create_ok _ _ _ _ _ Hf) as (_ & _ & Hf').
      rewrite Hn in Hf'. rewrite Hf'. rewrite lookup_insert_eq.
      rewrite <- Hfs1, Hn. reflexivity. }
  pose proof (set_permissions_ok _ _ _ _ _ _ Hs) as Hs'.
  destruct (unix c) eqn:Hu.
  - destruct Hs' as (f & Hf & _ & _ & Hfs').
    exists (mkFile (contents f) 384 (owner f)). rewrite Hfs', lookup_insert_eq.
    repeat split; auto. discriminate.
  - subst s'.
    destruct (files s2 !! p) as [f2|] eqn:E2.
    + destruct Hw' as [_ Hw']. rewrite Hw'. eexists. rewrite lookup_insert_eq.
      split; [reflexivity|]. split; intros; [discriminate|exact Hmode2].
    + rewrite Hw'. eexists. rewrite lookup_insert_eq.
      split; [reflexivity|]. split; intros; [discriminate|exact Hmode2].
Qed.

Lemma save_credential_sets_mode_600_witness :
  exists f, files (outcome_fs (save_credential sample_parse sample_render sample_ctx "tok" None
                                 (fs_empty_file 420)))
              !! credential_path_of sample_home = Some f
    /\ (unix sample_ctx = true -> mode f = 384)
    /\ (unix sample_ctx = false ->
        mode f = match files (fs_empty_file 420) !! credential_path_of sample_home with
                 | Some f0 => mode f0
                 | None => new_file_mode sample_ctx
                 end).
Proof.
  apply (save_credential_sets_mode_600 sample_parse sample_render sample_ctx "tok" None
           (fs_empty_file 420)); vm_compute; reflexivity.
Defined.

(** Conversely, a run whose every step succeeds ends in [Ok]. *)
Lemma save_credential_ok_intro parse render (c : ctx) (t : string) tm (s s1 s2 s4 s' : fs)
    (h old : string) (d d1 : Value) :
  resolve_home c tm = inl h ->
  create_dir_all c h s = IOk tt s1 ->
  ((path_exists (credential_path_of h) s1 = true /\ s2 = s1)
   \/ (path_exists (credential_path_of h) s1 = false
       /\ file_create c (credential_path_of h) s1 = IOk tt s2)) ->
  read_to_string c (credential_path_of h) s2 = IOk old s2 ->
  parse old = inl d ->
  merge_token d t = Some d1 ->
  fs_write c (credential_path_of h) (render d1) s2 = IOk tt s4 ->
  file_open c (credential_path_of h) s4 = IOk (credential_path_of h) s4 ->
  set_permissions c (credential_path_of h) 384 s4 = IOk tt s' ->
  save_credential parse render c t tm s = Ok tt s'.
Proof.
  intros Hres Hc He Hr Hp Hm Hw Ho Hs.
  unfold save_credential, bind, lift_io, ret, unwrap, expect_io.
  rewrite Hres, Hc.
  destruct He as [[He ->]|[He Hf]]; rewrite He; simpl; [|rewrite Hf];
    rewrite Hr, Hp, Hm, Hw, Ho, Hs; reflexivity.
Qed.

Lemma string_length_app (a b : string) :
  String.length (a ++ b)%string = (String.length a + String.length b)%nat.
Proof. induction a as [|ch a IH]; simpl; [reflexivity|]. rewrite IH. reflexivity. Qed.

Lemma chain_go_length (acc p d : string) :
  In d (chain_go acc p) -> (String.length d <= String.length acc + String.length p)%nat.
Proof.
  revert acc. induction p as [|ch p IH]; intros acc; simpl; [intros []|].
  intros Hin. apply in_app_or in Hin. destruct Hin as [Hin|Hin].
  - destruct (Ascii.eqb ch "/"%char && negb (String.eqb acc "")); simpl in Hin;
      [destruct Hin as [<-|[]]; lia | contradiction].
  - apply IH in Hin. rewrite string_length_app in Hin. simpl in Hin. lia.
Qed.

Lemma dir_chain_length (h d : string) :
  In d (dir_chain h) -> (String.length d <= String.length h)%nat.
Proof.
  unfold dir_chain. destruct (String.eqb h ""); [intros []|].
  intros Hin. apply in_app_or in Hin. destruct Hin as [Hin|[<-|[]]]; [|lia].
  apply chain_go_length in Hin. simpl in Hin. lia.
Qed.

(** The credential file is never one of the directories [create_dir_all]
    makes for its home. *)
Lemma credential_path_not_in_chain (h : string) :
  ~ In (credential_path_of h) (dir_chain h).
Proof.
  intros Hin. apply dir_chain_length in Hin. unfold credential_path_of in Hin.
  rewrite string_length_app in Hin. simpl in Hin. lia.
Qed.

(* ================================================================== *)
(** * Unreadable credential file *)

(** C3: when the credential file cannot be read (after the directory is
    made and a missing file created), [save_credential] fails with the
    message [Error reading input: ] followed by the OS error text, in the
    state reached before the read; it does not go on with an empty
    document. *)
Theorem save_credential_read_error parse render (c : ctx) (t : string) tm (s s1 s2 : fs)
    (h : string) (e : io_error) :
  resolve_home c tm = inl h ->
  create_dir_all c h s = IOk tt s1 ->
  ((path_exists (credential_path_of h) s1 = true /\ s2 = s1)
   \/ (path_exists (credential_path_of h) s1 = false
       /\ file_create c (credential_path_of h) s1 = IOk tt s2)) ->
  read_to_string c (credential_path_of h) s2 = IErr e ->
  save_credential parse render c t tm s
    = Err (EMsg ("Error reading input: " ++ io_error_text e)%string) s2.
Proof.
  intros Hres Hc He Hr.
  unfold save_credential, bind, lift_io, ret, unwrap, expect_io.
  rewrite Hres, Hc.
  destruct He as [[He ->]|[He Hf]]; rewrite He; simpl; [|rewrite Hf]; rewrite Hr; reflexivity.
Qed.

(** The permission-denied run of the spec (P6): a zero-byte file of mode
    [0o000]; the reported text is [Error reading input: Permission denied
    (os error 13)]. *)
Lemma save_credential_read_error_witness :
  save_credential sample_parse sample_render sample_ctx "test_token" None (fs_empty_file 0)
    = Err (EMsg ("Error reading input: " ++ io_error_text PermissionDenied)%string)
          (fs_empty_file 0)
  /\ ("Error reading input: " ++ io_error_text PermissionDenied)%string
     = "Error reading input: Permission denied (os error 13)".
Proof.
  split; [|reflexivity].
  apply (save_credential_read_error sample_parse sample_render sample_ctx "test_token" None
           (fs_empty_file 0) (fs_empty_file 0) (fs_empty_file 0) sample_home PermissionDenied).
  - vm_compute. reflexivity.
  - vm_compute. reflexivity.
  - left. split; [vm_compute; reflexivity|reflexivity].
  - vm_compute. reflexivity.
Defined.

(* ================================================================== *)
(** * A [registry] entry that is not a table *)

(** C9: the merge panics (an [as_table_mut().unwrap()] on [None]) exactly
    when the document has a [registry] entry that is not a table; and
    [save_credential] on a file that parses to such a document panics with
    the [unwrap] message instead of returning an error. *)
Theorem save_credential_registry_not_table_panics :
  (forall (top : list (string * Value)) (t : string),
     merge_token (VTable top) t = None
     <-> exists v, map_get "registry" top = Some v /\ as_table v = None)
  /\ (forall parse render (c : ctx) (t : string) tm (s s1 s2 : fs) (h old : string)
        (top : list (string * Value)) (v : Value),
        resolve_home c tm = inl h ->
        create_dir_all c h s = IOk tt s1 ->
        ((path_exists (credential_path_of h) s1 = true /\ s2 = s1)
         \/ (path_exists (credential_path_of h) s1 = false
             /\ file_create c (credential_path_of h) s1 = IOk tt s2)) ->
        read_to_string c (credential_path_of h) s2 = IOk old s2 ->
        parse old = inl (VTable top) ->
        map_get "registry" top = Some v ->
        as_table v = None ->
        save_credential parse render c t tm s = Panic unwrap_none_msg s2).
Proof.
  split.
  - intros top t. unfold merge_token. simpl. split.
    + destruct (map_get "registry" top) as [v|].
      * destruct (as_table v) as [reg|] eqn:Hv.
        -- destruct (map_get "token" reg); discriminate.
        -- intros _. eauto.
      * discriminate.
    + intros (v & -> & ->). reflexivity.
  - intros parse render c t tm s s1 s2 h old top v Hres Hc He Hr Hp Hget Hv.
    assert (Hm : merge_token (VTable top) t = None).
    { unfold merge_token. simpl. rewrite Hget, Hv. reflexivity. }
    unfold save_credential, bind, lift_io, ret, unwrap, expect_io.
    rewrite Hres, Hc.
    destruct He as [[He ->]|[He Hf]]; rewrite He; simpl; [|rewrite Hf];
      rewrite Hr, Hp, Hm; reflexivity.
Qed.

(** The file [registry = "x"]. *)
Lemma save_credential_registry_not_table_panics_witness :
  save_credential sample_parse sample_render sample_ctx "tok" None fs_registry_string
    = Panic unwrap_none_msg fs_registry_string.
Proof.
  apply (proj2 save_credential_registry_not_table_panics sample_parse sample_render
           sample_ctx "tok" None fs_registry_string fs_registry_string fs_registry_string
           sample_home ("registry = " ++ dq ++ "x" ++ dq ++ nl)%string
           [("registry", VString "x")] (VString "x")).
  - vm_compute. reflexivity.
  - vm_compute. reflexivity.
  - left. split; [vm_compute; reflexivity|reflexivity].
  - vm_compute. reflexivity.
  - vm_compute. reflexivity.
  - reflexivity.
  - reflexivity.
Defined.

(* ================================================================== *)
(** * Saving the same token twice *)

(** [create_dir_all] on a home whose directories all exist changes nothing. *)
Lemma create_dir_all_again (c : ctx) (h : string) (s : fs) :
  (forall d, In d (dir_chain h) -> d ∈ dirs s) ->
  (forall d, In d (dir_chain h) -> files s !! d = None) ->
  create_dir_all c h s = IOk tt s.
Proof.
  intros Hd Hf. unfold create_dir_all.
  destruct (String.eqb h "") eqn:Hh; [reflexivity|].
  assert (Hin : In h (dir_chain h)).
  { unfold dir_chain. rewrite Hh. apply in_or_app. right. left. reflexivity. }
  rewrite bool_decide_eq_false_2 by (rewrite (Hf h Hin); intros [? ?]; discriminate).
  destruct (existsb _ _) eqn:Hex.
  - apply existsb_exists in Hex as (d & Hdin & Hb).
    apply bool_decide_eq_true in Hb. rewrite (Hf d Hdin) in Hb. destruct Hb; discriminate.
  - destruct s as [D F]. simpl in *. f_equal. f_equal.
    apply set_eq. intros x. rewrite elem_of_union, elem_of_list_to_set, list_elem_of_In.
    split; [intros [Hx|Hx]; [exact Hx|apply Hd; exact Hx]|intros Hx; left; exact Hx].
Qed.

Lemma can_write_contents (c : ctx) (a b : string) (m o : Z) :
  can_write c (mkFile a m o) = can_write c (mkFile b m o).
Proof. reflexivity. Qed.

Lemma can_read_contents (c : ctx) (a b : string) (m o : Z) :
  can_read c (mkFile a m o) = can_read c (mkFile b m o).
Proof. reflexivity. Qed.

(** C5: merging the same token twice gives the document of one merge;
    and, when the TOML codec reads back what it renders for the merged
    documents, a second [save_credential] with the same token after a
    successful one leaves the file system exactly as the first left it. *)
Theorem save_credential_idempotent parse render (c : ctx) (t : string) tm (s s1 : fs) :
  (forall d d1, merge_token d t = Some d1 -> merge_token d1 t = Some d1)
  /\ ((forall old d0 d1, parse old = inl d0 -> merge_token d0 t = Some d1 ->
                         parse (render d1) = inl d1) ->
      save_credential parse render c t tm s = Ok tt s1 ->
      save_credential parse render c t tm s1 = Ok tt s1).
Proof.
  split; [intros d d1; apply merge_token_idem|].
  intros Hrt Hsave.
  destruct (save_credential_ok_inv _ _ _ _ _ _ _ _ Hsave)
    as (h & sA & s2 & old & d & d1 & s4 & Hres & Hc & He & Hr & Hp & Hm & Hw & Ho & Hs).
  set (p := credential_path_of h) in *.
  destruct (create_dir_all_ok _ _ _ _ _ Hc) as (HfA & HdA & HchA).
  destruct (fs_write_ok _ _ _ _ _ _ Hw) as (Hnd2 & Hd4 & Hw').
  (* after the first run the file exists: it was there or File::create made it *)
  assert (Hd2 : dirs s2 = dirs sA /\ forall q, q <> p -> files s2 !! q = files sA !! q).
  { destruct He as [[_ ->]|[_ Hf]]; [split; reflexivity|].
    destruct (file_create_ok _ _ _ _ _ Hf) as (_ & Hd & Hf').
    split; [exact Hd|]. intros q Hq.
    destruct (files sA !! p); [destruct Hf' as [_ Hf']|]; rewrite Hf';
      apply lookup_insert_ne; congruence. }
  destruct Hd2 as [Hd2 Hq2].
  destruct (files s2 !! p) as [f2|] eqn:E2.
  2:{ exfalso. destruct He as [[He ->]|[He Hf]].
      - unfold path_exists in He. rewrite E2 in He. apply orb_true_iff in He as [He|He];
          apply bool_decide_eq_true in He; [contradiction|destruct He; discriminate].
      - destruct (file_create_ok _ _ _ _ _ Hf) as (_ & _ & Hf').
        destruct (files sA !! p); [destruct Hf' as [_ Hf']|]; rewrite Hf' in E2;
          rewrite lookup_insert_eq in E2; discriminate. }
  destruct Hw' as [Hwr2 Hfs4].
  set (f4 := mkFile (render d1) (mode f2) (owner f2)) in *.
  destruct (file_open_state _ _ _ _ _ Ho) as [_ _].
  assert (Hrd4 : can_read c f4 = true).
  { revert Ho. unfold file_open. rewrite bool_decide_eq_false_2 by (rewrite Hd4; exact Hnd2).
    rewrite Hfs4, lookup_insert_eq. destruct (can_read c f4); [reflexivity|discriminate]. }
  assert (Hwr4 : can_write c f4 = true) by exact Hwr2.
  (* files of s1 away from the credential path are those of s *)
  assert (Hq1 : forall q, q <> p -> files s1 !! q = files s !! q).
  { intros q Hq. pose proof (set_permissions_ok _ _ _ _ _ _ Hs) as Hs'.
    rewrite <- HfA, <- (Hq2 q Hq).
    destruct (unix c).
    - destruct Hs' as (f & _ & _ & _ & Hfs1). rewrite Hfs1, lookup_insert_ne by congruence.
      rewrite Hfs4, lookup_insert_ne by congruence. reflexivity.
    - subst s1. rewrite Hfs4, lookup_insert_ne by congruence. reflexivity. }
  (* the file of s1, and s1 as an explicit record *)
  assert (Hfinal : exists f1, files s1 !! p = Some f1 /\ dirs s1 = dirs s2
                   /\ contents f1 = render d1
                   /\ can_read c f1 = true /\ can_write c f1 = true
                   /\ (unix c = true -> mode f1 = 384 /\ (uid c = 0 \/ uid c = owner f1))).
  { pose proof (set_permissions_ok _ _ _ _ _ _ Hs) as Hs'.
    destruct (unix c) eqn:Hu.
    - destruct Hs' as (f & Hf & Hown & Hd1 & Hfs1).
      rewrite Hfs4, lookup_insert_eq in Hf. injection Hf as <-.
      exists (mkFile (render d1) 384 (owner f4)). rewrite Hfs1, lookup_insert_eq.
      split; [reflexivity|]. split; [rewrite Hd1, Hd4; reflexivity|].
      split; [reflexivity|].
      unfold can_read, can_write. simpl.
      destruct Hown as [Hown|Hown]; rewrite Hown.
      + simpl. repeat split; auto.
      + rewrite Z.eqb_refl, ?orb_true_r. simpl. repeat split; auto.
    - subst s1. exists f4. rewrite Hfs4, lookup_insert_eq.
      repeat split; auto; try discriminate; congruence. }
  destruct Hfinal as (f1 & Hf1 & Hd1 & Hcont1 & Hrd1 & Hwr1 & Hunix1).
  assert (Heta : s1 = mkFs (dirs s1) (files s1)) by (destruct s1; reflexivity).
  assert (Hnd1 : p ∉ dirs s1) by (rewrite Hd1; exact Hnd2).
  assert (Hins : <[p := mkFile (render d1) (mode f1) (owner f1)]> (files s1) = files s1).
  { apply insert_id. rewrite <- Hcont1. destruct f1. exact Hf1. }
  eapply (save_credential_ok_intro _ _ _ _ _ s1 s1 s1 s1 s1 h (render d1) d1 d1); eauto;
    try change (credential_path_of h) with p.
  - (* the home exists already *)
    apply create_dir_all_again.
    + intros dd Hdd. rewrite Hd1, Hd2. apply HdA. right. exact Hdd.
    + intros dd Hdd. assert (dd <> p).
      { intros ->. exact (credential_path_not_in_chain h Hdd). }
      rewrite Hq1 by assumption. apply HchA. exact Hdd.
  - left. split; [|reflexivity]. unfold path_exists. rewrite Hf1.
    rewrite (bool_decide_eq_true_2 (is_Some (Some f1))) by eauto. apply orb_true_r.
  - unfold read_to_string. rewrite bool_decide_eq_false_2 by exact Hnd1.
    rewrite Hf1, Hrd1, Hcont1. reflexivity.
  - apply merge_token_idem with (d := d). exact Hm.
  - unfold fs_write. rewrite bool_decide_eq_false_2 by exact Hnd1.
    rewrite Hf1, Hwr1. rewrite Hins. rewrite <- Heta. reflexivity.
  - unfold file_open. rewrite bool_decide_eq_false_2 by exact Hnd1.
    rewrite Hf1, Hrd1. reflexivity.
  - unfold set_permissions. destruct (unix c) eqn:Hu; [|reflexivity].
    rewrite Hf1. destruct (Hunix1 eq_refl) as [Hmode Hown].
    replace ((uid c =? 0) || (uid c =? owner f1)) with true
      by (destruct Hown as [-> | ->]; rewrite ?Z.eqb_refl, ?orb_true_r; reflexivity).
    rewrite <- Hmode, insert_id; [rewrite <- Heta; reflexivity|]. destruct f1. exact Hf1.
Qed.

(** Two saves of token [t] on a fresh home, with a codec that reads back
    the file it writes. *)
Lemma save_credential_idempotent_witness :
  save_credential (two_doc_parse "t") sample_render sample_ctx "t" None
      (outcome_fs (save_credential (two_doc_parse "t") sample_render sample_ctx "t" None fs_fresh))
    = Ok tt (outcome_fs (save_credential (two_doc_parse "t") sample_render sample_ctx "t" None
                           fs_fresh)).
Proof.
  apply (proj2 (save_credential_idempotent (two_doc_parse "t") sample_render sample_ctx "t" None
                  fs_fresh _)).
  - intros old d0 d1 Hp Hm. unfold two_doc_parse in Hp.
    destruct (String.eqb old "").
    + injection Hp as <-. vm_compute in Hm. injection Hm as <-. vm_compute. reflexivity.
    + destruct (String.eqb old (sample_render (token_doc "t"))); [|discriminate].
      injection Hp as <-. vm_compute in Hm. injection Hm as <-. vm_compute. reflexivity.
  - vm_compute. reflexivity.
Defined.

(* ================================================================== *)
(** * Resolution of the Move home *)

(** C8: with a test override the home is [TEST_MOVE_HOME] (a panic when it
    is unset) followed by the override suffix when that is non-empty;
    without one it is [MOVE_HOME], or [$HOME/.move] when [MOVE_HOME] is
    unset.  A failed resolution panics before touching the file system.
    Otherwise [create_dir_all] runs first: either it fails and the call
    returns its error with nothing else done, or every directory of the
    home's chain exists afterwards, no file has changed, and the rest of
    the call behaves as a call on a file system where the home already
    exists. *)
Theorem save_credential_resolves_home :
  (forall (c : ctx) (tp : string),
     resolve_home c (Some (mkTestMode tp))
       = match env c !! "TEST_MOVE_HOME" with
         | None => inr unwrap_env_msg
         | Some base => inl (if String.eqb tp "" then base else (base ++ tp)%string)
         end)
  /\ (forall (c : ctx),
        resolve_home c None
          = match env c !! "MOVE_HOME" with
            | Some base => inl base
            | None =>
                match env c !! "HOME" with
                | Some home => inl (home ++ "/.move")%string
                | None => inr "env var 'HOME' must be set: NotPresent"
                end
            end)
  /\ (forall parse render (c : ctx) (t : string) tm (s : fs) (msg : string),
        resolve_home c tm = inr msg ->
        save_credential parse render c t tm s = Panic msg s)
  /\ (forall parse render (c : ctx) (t : string) tm (s : fs) (h : string),
        resolve_home c tm = inl h ->
        (exists e, create_dir_all c h s = IErr e
                   /\ save_credential parse render c t tm s = Err (EIo e) s)
        \/ (exists s1, create_dir_all c h s = IOk tt s1
                       /\ files s1 = files s
                       /\ (forall d, In d (dir_chain h) -> d ∈ dirs s1)
                       /\ save_credential parse render c t tm s
                          = save_credential parse render c t tm s1)).
Proof.
  split; [|split; [|split]].
  - intros c tp. unfold resolve_home. simpl.
    destruct (env c !! "TEST_MOVE_HOME"); [|reflexivity].
    destruct (String.eqb tp ""); reflexivity.
  - intros c. reflexivity.
  - intros parse render c t tm s msg Hres.
    unfold save_credential, bind. rewrite Hres. reflexivity.
  - intros parse render c t tm s h Hres.
    destruct (create_dir_all c h s) as [[] s1|e] eqn:Hc.
    + right. exists s1.
      destruct (create_dir_all_ok _ _ _ _ _ Hc) as (Hf & Hd & Hch).
      assert (Hc1 : create_dir_all c h s1 = IOk tt s1).
      { apply create_dir_all_again.
        - intros d Hin. apply Hd. right. exact Hin.
        - intros d Hin. rewrite Hf. apply Hch. exact Hin. }
      split; [reflexivity|]. split; [exact Hf|]. split.
      * intros d Hin. apply Hd. right. exact Hin.
      * unfold save_credential, bind, lift_io. rewrite Hres, Hc, Hc1. reflexivity.
    + left. exists e. split; [reflexivity|].
      unfold save_credential, bind, lift_io. rewrite Hres, Hc. reflexivity.
Qed.

Lemma save_credential_resolves_home_witness :
  resolve_home sample_ctx None = inl sample_home
  /\ ((exists e, create_dir_all sample_ctx sample_home fs_fresh = IErr e
                 /\ save_credential sample_parse sample_render sample_ctx "t" None fs_fresh
                    = Err (EIo e) fs_fresh)
      \/ (exists s1, create_dir_all sample_ctx sample_home fs_fresh = IOk tt s1
                     /\ files s1 = files fs_fresh
                     /\ (forall d, In d (dir_chain sample_home) -> d ∈ dirs s1)
                     /\ save_credential sample_parse sample_render sample_ctx "t" None fs_fresh
                        = save_credential sample_parse sample_render sample_ctx "t" None s1)).
Proof.
  split; [reflexivity|].
  apply (proj2 (proj2 (proj2 save_credential_resolves_home))). reflexivity.
Defined.

(* ================================================================== *)
(** * What a failed call leaves behind *)




(* ================================================================== *)
(** * The token prompt *)

Lemma drop_last_if_cons (ch a : ascii) (cs : list ascii) :
  cs <> [] -> drop_last_if ch (a :: cs) = a :: drop_last_if ch cs.
Proof.
  intros Hne. unfold drop_last_if. cbn [List.rev].
  destruct (List.rev cs) as [|b l] eqn:Hr.
  - apply (f_equal (@List.rev ascii)) in Hr. rewrite List.rev_involutive in Hr.
    subst cs. contradiction.
  - cbn [List.app]. destruct (Ascii.eqb b ch); [|reflexivity].
    destruct cs as [|x cs]; [contradiction|reflexivity].
Qed.

(** [pop_if] removes the last character exactly when it is [ch]. *)
Lemma pop_if_spec (ch : ascii) (s : string) :
  pop_if ch s = string_of_list_ascii (drop_last_if ch (list_ascii_of_string s)).
Proof.
  induction s as [|a s IH]; [reflexivity|].
  destruct s as [|b s].
  - unfold drop_last_if. simpl. destruct (Ascii.eqb a ch); reflexivity.
  - transitivity (String a (pop_if ch (String b s))); [reflexivity|].
    transitivity (string_of_list_ascii
                    (drop_last_if ch (a :: list_ascii_of_string (String b s))));
      [|reflexivity].
    rewrite drop_last_if_cons by discriminate. rewrite IH. reflexivity.
Qed.

Lemma strip_line_spec (l : string) : strip_line l = strip_spec l.
Proof.
  unfold strip_line, strip_spec. rewrite !pop_if_spec.
  rewrite list_ascii_of_string_of_list_ascii. reflexivity.
Qed.

(** The loop, started with an empty buffer after the lines [out] were
    printed, follows [token_prompt_spec]. *)
Lemma prompt_loop_follows_spec (ins : list read_result) (out : list string) :
  match token_prompt_spec ins with
  | (msgs, Some r) =>
      forall n, (length ins <= n)%nat -> prompt_loop n (mkP "" ins out) = inr (r, out ++ msgs)
  | (msgs, None) =>
      prompt_loop (length ins) (mkP "" ins out) = inl (mkP "" [] (out ++ msgs))
  end.
Proof.
  revert out. induction ins as [|r rest IH]; intros out.
  - simpl. rewrite app_nil_r. reflexivity.
  - destruct r as [chunk|e].
    + cbn [token_prompt_spec].
      destruct (String.eqb (strip_spec chunk) "") eqn:Hs.
      * specialize (IH (out ++ [retry_msg])).
        assert (Hstep : prompt_step (mkP "" (ReadOk chunk :: rest) out)
                        = Continue (mkP "" rest (out ++ [retry_msg]))).
        { apply String.eqb_eq in Hs.
          unfold prompt_step. cbn [read_line line stdin stdout].
          change (String.append "" chunk) with chunk.
          rewrite strip_line_spec, Hs. reflexivity. }
        destruct (token_prompt_spec rest) as [msgs [r|]].
        -- intros [|n] Hn; [simpl in Hn; lia|].
           simpl prompt_loop. rewrite Hstep. rewrite IH by (simpl in Hn; lia).
           rewrite <- app_assoc. reflexivity.
        -- simpl length. simpl prompt_loop. rewrite Hstep, IH.
           rewrite <- app_assoc. reflexivity.
      * intros [|n] Hn; [simpl in Hn; lia|].
        cbn [prompt_loop]. unfold prompt_step.
        cbn [read_line line stdin stdout].
          change (String.append "" chunk) with chunk.
        rewrite strip_line_spec, Hs. cbn. rewrite app_nil_r. reflexivity.
    + intros [|n] Hn; [simpl in Hn; lia|].
      simpl. rewrite app_nil_r. reflexivity.
Qed.

Lemma token_prompt_spec_nonempty (ins : list read_result) (msgs : list string)
    (tok : string) :
  token_prompt_spec ins = (msgs, Some (inl tok)) -> tok <> "".
Proof.
  revert msgs. induction ins as [|[chunk|e] rest IH]; intros msgs; simpl.
  - discriminate.
  - destruct (String.eqb (strip_spec chunk) "") eqn:Hs.
    + destruct (token_prompt_spec rest) as [m r] eqn:Hr.
      intros H. injection H as _ ->. eapply IH. reflexivity.
    + intros H. injection H as _ <-. intros He. rewrite He in Hs. discriminate.
  - discriminate.
Qed.

(** C7: the loop of lines 24-43 behaves as the spec's prompt: on any input,
    after the lines [out] already printed, it prints one retry message per
    line that is empty once a trailing ['\n'] and then a trailing ['\r'] are
    removed, stops at the first non-empty one and returns it (never an
    empty token), or stops at the first read error with
    [Error reading file: <cause>]; and such an error ends
    [handle_login_commands] at once, with the file system untouched. *)
Theorem token_prompt_refines_spec (ins : list read_result) (out : list string) :
  match token_prompt_spec ins with
  | (msgs, Some r) =>
      (forall n, (length ins <= n)%nat -> prompt_loop n (mkP "" ins out) = inr (r, out ++ msgs))
      /\ (forall tok, r = inl tok -> tok <> "")
  | (msgs, None) =>
      prompt_loop (length ins) (mkP "" ins out) = inl (mkP "" [] (out ++ msgs))
  end
  /\ (forall parse render fuel c debug_assertions test_path s msgs e,
        token_prompt_spec ins = (msgs, Some (inr e)) -> (length ins <= fuel)%nat ->
        exists out',
          handle_login_commands parse render fuel c debug_assertions test_path ins s
            = Some (Err e s, out')).
Proof.
  split.
  - pose proof (prompt_loop_follows_spec ins out) as H.
    destruct (token_prompt_spec ins) as [msgs [r|]] eqn:Hspec; [|exact H].
    split; [exact H|]. intros tok ->. eapply token_prompt_spec_nonempty. exact Hspec.
  - intros parse render fuel c da tp s msgs e Hspec Hn.
    pose proof (prompt_loop_follows_spec ins
                  [("Please paste the API Token found on "
                    ++ (if da then "https://movey-app-staging.herokuapp.com"
                        else "https://movey.net") ++ "/settings/tokens below")%string]) as H.
    rewrite Hspec in H. unfold handle_login_commands. rewrite (H fuel Hn).
    eexists. reflexivity.
Qed.

Lemma token_prompt_refines_spec_witness :
  token_prompt_spec [ReadOk (String "010" EmptyString); ReadOk "tok"]
    = ([retry_msg], Some (inl "tok"%string))
  /\ prompt_loop 2 (mkP "" [ReadOk (String "010" EmptyString); ReadOk "tok"] [])
     = inr (inl "tok"%string, [retry_msg]).
Proof.
  split; [vm_compute; reflexivity|].
  pose proof (token_prompt_refines_spec
                [ReadOk (String "010" EmptyString); ReadOk "tok"] []) as [H _].
  vm_compute in H. destruct H as [H _]. apply H. lia.
Defined.

(** C10: once the input consists only of lines that are empty after
    stripping — in particular once it is at end of file, where [read_line]
    succeeds and leaves the empty buffer as it is — every iteration prints
    the retry message and loops again: after any number [n] of iterations
    the loop is still running, with [n] retry messages printed, and
    [handle_login_commands] never returns. *)
Theorem prompt_loop_eof_never_ends (ins : list read_result) (out : list string) :
  Forall (fun r => exists chunk, r = ReadOk chunk /\ strip_line chunk = "") ins ->
  (forall n, prompt_loop n (mkP "" ins out)
             = inl (mkP "" (drop n ins) (out ++ repeat retry_msg n)))
  /\ (forall parse render fuel c debug_assertions test_path s,
        handle_login_commands parse render fuel c debug_assertions test_path ins s = None).
Proof.
  intros Hall.
  assert (Hloop : forall n ins out,
            Forall (fun r => exists chunk, r = ReadOk chunk /\ strip_line chunk = "") ins ->
            prompt_loop n (mkP "" ins out)
            = inl (mkP "" (drop n ins) (out ++ repeat retry_msg n))).
  { clear ins out Hall. induction n as [|n IH]; intros ins out Hall.
    - simpl. rewrite app_nil_r. reflexivity.
    - destruct ins as [|r rest].
      + change (prompt_loop (S n) (mkP "" [] out))
          with (prompt_loop n (mkP "" [] (out ++ [retry_msg]))).
        rewrite IH by constructor. rewrite <- app_assoc, !skipn_nil. reflexivity.
      + inversion Hall as [|? ? (chunk & -> & Hs) Hrest]; subst.
        assert (Hstep : prompt_step (mkP "" (ReadOk chunk :: rest) out)
                        = Continue (mkP "" rest (out ++ [retry_msg]))).
        { unfold prompt_step. cbn [read_line line stdin stdout].
          change (String.append "" chunk) with chunk.
          rewrite Hs. reflexivity. }
        simpl prompt_loop. rewrite Hstep, IH by exact Hrest.
        rewrite <- app_assoc. reflexivity. }
  split; [intros n; apply Hloop; exact Hall|].
  intros parse render fuel c da tp s. unfold handle_login_commands.
  rewrite Hloop by exact Hall. reflexivity.
Qed.

Lemma prompt_loop_eof_never_ends_witness :
  prompt_loop 3 (mkP "" [ReadOk (String "010" EmptyString)] [])
    = inl (mkP "" [] [retry_msg; retry_msg; retry_msg]).
Proof.
  apply (prompt_loop_eof_never_ends [ReadOk (String "010" EmptyString)] []).
  constructor; [|constructor]. eexists. split; reflexivity.
Defined.

(* ================================================================== *)
(** * Further properties of the merge step *)

Lemma map_fst_set_first (k : string) (v : Value) (m : list (string * Value)) :
  map fst (map_set_first k v m) = map fst m.
Proof.
  induction m as [|[k0 v0] m IH]; simpl; [reflexivity|].
  destruct (String.eqb k k0); simpl; [reflexivity|]. rewrite IH. reflexivity.
Qed.

Lemma map_get_none_not_in (k : string) (m : list (string * Value)) :
  map_get k m = None -> ~ In k (map fst m).
Proof.
  induction m as [|[k0 v0] m IH]; simpl; [auto|].
  destruct (String.eqb_spec k k0) as [->|Hne]; [discriminate|].
  intros Hg [Heq|Hin]; [congruence|]. exact (IH Hg Hin).
Qed.

Lemma nodup_snoc {X} (l : list X) (x : X) :
  List.NoDup l -> ~ In x l -> List.NoDup (l ++ [x]).
Proof.
  induction l as [|y l IH]; simpl; intros Hnd Hx.
  - constructor; [intros []|constructor].
  - inversion Hnd as [|? ? Hy Hl]; subst. constructor.
    + intros Hin. apply in_app_or in Hin as [Hin|[<-|[]]]; [contradiction|].
      apply Hx. left. reflexivity.
    + apply IH; [exact Hl|]. intros Hin. apply Hx. right. exact Hin.
Qed.

(** The other top-level entries of the document are kept by the merge: only
    the value of ["registry"] changes. *)
Theorem merge_token_keeps_other_entries (d d1 : Value) (t : string) :
  merge_token d t = Some d1 ->
  exists top top', d = VTable top /\ d1 = VTable top'
    /\ forall k, k <> "registry" -> map_get k top' = map_get k top.
Proof.
  unfold merge_token. destruct d as [| | | | | |top]; try discriminate. simpl.
  destruct (map_get "registry" top) as [registry|] eqn:Hr.
  - destruct registry as [| | | | | |reg]; try discriminate. simpl.
    destruct (map_get "token" reg); intros H; injection H as <-;
      exists top; eexists; (split; [reflexivity|]); (split; [reflexivity|]);
      intros k Hk; apply map_get_set_first_other; congruence.
  - intros H. injection H as <-. exists top. eexists. split; [reflexivity|].
    split; [reflexivity|]. intros k Hk. unfold map_insert at 1. rewrite Hr.
    apply map_get_snoc_other. exact Hk.
Qed.

Lemma merge_token_keeps_other_entries_witness :
  merge_token (VTable [("version", VString "0.0.0"); ("registry", VTable [])]) "t"
    = Some (VTable [("version", VString "0.0.0");
                    ("registry", VTable [("token", VString "t")])])
  /\ exists top top', VTable [("version", VString "0.0.0"); ("registry", VTable [])] = VTable top
       /\ VTable [("version", VString "0.0.0"); ("registry", VTable [("token", VString "t")])]
          = VTable top'
       /\ forall k, k <> "registry" -> map_get k top' = map_get k top.
Proof.
  split; [reflexivity|].
  apply (merge_token_keeps_other_entries
           (VTable [("version", VString "0.0.0"); ("registry", VTable [])]) _ "t").
  reflexivity.
Defined.

(** The merge never reorders nor duplicates keys: the top-level keys stay
    in order, with ["registry"] added at the end when it was missing, and the
    keys of the registry table stay in order, with ["token"] added at the
    end when it was missing; keys that were distinct stay distinct. *)
Theorem merge_token_key_order (top top' : list (string * Value)) (t : string) :
  merge_token (VTable top) t = Some (VTable top') ->
  (map fst top' = map fst top
   \/ (map_get "registry" top = None /\ map fst top' = map fst top ++ ["registry"]))
  /\ (List.NoDup (map fst top) -> List.NoDup (map fst top'))
  /\ (forall reg, map_get "registry" top = Some (VTable reg) ->
        exists reg', map_get "registry" top' = Some (VTable reg')
          /\ (map fst reg' = map fst reg
              \/ (map_get "token" reg = None /\ map fst reg' = map fst reg ++ ["token"]))
          /\ (List.NoDup (map fst reg) -> List.NoDup (map fst reg'))).
Proof.
  unfold merge_token. simpl.
  destruct (map_get "registry" top) as [registry|] eqn:Hr.
  - destruct registry as [| | | | | |reg]; try discriminate. simpl.
    assert (Hne : map_get "registry" top <> None) by congruence.
    destruct (map_get "token" reg) as [tk|] eqn:Ht; intros H; injection H as <-;
      rewrite map_fst_set_first; (split; [left; reflexivity|]);
      (split; [tauto|]); intros reg0 Hreg0; injection Hreg0 as <-;
      eexists; (split; [apply map_get_set_first_same; exact Hne|]).
    + rewrite map_fst_set_first. split; [left; reflexivity|tauto].
    + unfold map_insert. rewrite Ht. rewrite map_app. simpl.
      split; [right; split; [reflexivity|reflexivity]|].
      intros Hnd. apply nodup_snoc; [exact Hnd|]. apply map_get_none_not_in. exact Ht.
  - intros H. injection H as <-. unfold map_insert. rewrite Hr. simpl.
    rewrite map_app. simpl. split; [right; split; reflexivity|]. split.
    + intros Hnd. apply nodup_snoc; [exact Hnd|]. apply map_get_none_not_in. exact Hr.
    + intros reg0 Hreg0. discriminate Hreg0.
Qed.

Lemma merge_token_key_order_witness :
  map fst [("version", VString "0.0.0"); ("registry", VTable [("token", VString "t")])]
    = ["version"; "registry"]%string
  /\ ((map fst [("version", VString "0.0.0"); ("registry", VTable [("token", VString "t")])]
        = map fst [("version", VString "0.0.0")]
       \/ (map_get "registry" [("version", VString "0.0.0")] = None
           /\ map fst [("version", VString "0.0.0"); ("registry", VTable [("token", VString "t")])]
              = map fst [("version", VString "0.0.0")] ++ ["registry"]))
      /\ (List.NoDup (map fst [("version", VString "0.0.0")]) ->
          List.NoDup (map fst [("version", VString "0.0.0");
                               ("registry", VTable [("token", VString "t")])]))
      /\ (forall reg, map_get "registry" [("version", VString "0.0.0")] = Some (VTable reg) ->
            exists reg', map_get "registry" [("version", VString "0.0.0");
                                             ("registry", VTable [("token", VString "t")])]
                         = Some (VTable reg')
              /\ (map fst reg' = map fst reg
                  \/ (map_get "token" reg = None /\ map fst reg' = map fst reg ++ ["token"]))
              /\ (List.NoDup (map fst reg) -> List.NoDup (map fst reg')))).
Proof.
  split; [reflexivity|].
  apply (merge_token_key_order [("version", VString "0.0.0")] _ "t"). reflexivity.
Defined.

(* ================================================================== *)
(** * Further properties of [save_credential] *)

(** What a successful call leaves: the directories of the home chain are
    added, no other file changes, and the credential file holds the
    rendering of the merged document read from its old contents (or from
    [""] when it did not exist), with its owner kept. *)
Lemma save_credential_ok_facts parse render (c : ctx) (t : string) tm (s s' : fs)
    (h : string) :
  resolve_home c tm = inl h ->
  save_credential parse render c t tm s = Ok tt s' ->
  (forall d, d ∈ dirs s' <-> d ∈ dirs s \/ In d (dir_chain h))
  /\ (forall q, q <> credential_path_of h -> files s' !! q = files s !! q)
  /\ exists old d0 d1 f,
       old = match files s !! credential_path_of h with
             | Some f0 => contents f0
             | None => ""
             end
       /\ parse old = inl d0 /\ merge_token d0 t = Some d1
       /\ files s' !! credential_path_of h = Some f /\ contents f = render d1
       /\ owner f = match files s !! credential_path_of h with
                    | Some f0 => owner f0
                    | None => uid c
                    end.
Proof.
  intros Hres Hsave.
  destruct (save_credential_ok_inv _ _ _ _ _ _ _ _ Hsave)
    as (h' & s1 & s2 & old & d & d1 & s4 & Hres' & Hc & He & Hr & Hp & Hm & Hw & Ho & Hs).
  rewrite Hres in Hres'. injection Hres' as <-.
  set (p := credential_path_of h) in *.
  destruct (create_dir_all_ok _ _ _ _ _ Hc) as (Hf1 & Hd1 & _).
  destruct (read_to_string_ok _ _ _ _ _ Hr) as (_ & f2 & Hf2 & Hold).
  assert (H2 : dirs s2 = dirs s1
               /\ (forall q, q <> p -> files s2 !! q = files s !! q)
               /\ match files s !! p with
                  | Some f0 => f2 = f0
                  | None => f2 = mkFile "" (new_file_mode c) (uid c)
                  end).
  { destruct He as [[_ ->]|[He Hfc]].
    - rewrite Hf1 in Hf2. rewrite Hf2. split; [reflexivity|].
      split; [intros q _; rewrite Hf1; reflexivity|reflexivity].
    - destruct (path_exists_false _ _ He) as [_ Hn].
      destruct (file_create_ok _ _ _ _ _ Hfc) as (_ & Hd & Hfc').
      rewrite Hn in Hfc'. rewrite Hf1 in Hn. rewrite Hn.
      rewrite Hfc', lookup_insert_eq in Hf2. injection Hf2 as <-.
      split; [exact Hd|]. split; [|reflexivity].
      intros q Hq. rewrite Hfc', lookup_insert_ne by congruence. rewrite Hf1. reflexivity. }
  destruct H2 as (Hd2 & Hq2 & Hf0).
  destruct (fs_write_ok _ _ _ _ _ _ Hw) as (_ & Hd4 & Hw').
  rewrite Hf2 in Hw'. destruct Hw' as [_ Hw'].
  pose proof (set_permissions_ok _ _ _ _ _ _ Hs) as Hsp.
  assert (Hfin : dirs s' = dirs s4
                 /\ (forall q, q <> p -> files s' !! q = files s4 !! q)
                 /\ exists f, files s' !! p = Some f /\ contents f = render d1
                              /\ owner f = owner f2).
  { destruct (unix c).
    - destruct Hsp as (f4 & Hf4 & _ & Hd' & Hf').
      rewrite Hw', lookup_insert_eq in Hf4. injection Hf4 as <-.
      split; [exact Hd'|]. split.
      + intros q Hq. rewrite Hf', lookup_insert_ne by congruence. reflexivity.
      + eexists. split; [rewrite Hf'; apply lookup_insert_eq|]. split; reflexivity.
    - subst s'. split; [reflexivity|]. split; [reflexivity|].
      eexists. split; [rewrite Hw'; apply lookup_insert_eq|]. split; reflexivity. }
  destruct Hfin as (Hd' & Hq' & f & Hf & Hcf & Hof).
  split; [|split].
  - intros dd. rewrite Hd', Hd4, Hd2. apply Hd1.
  - intros q Hq. rewrite Hq', Hw', lookup_insert_ne by congruence. apply Hq2. exact Hq.
  - exists old, d, d1, f. split; [|split; [exact Hp|split; [exact Hm|split; [exact Hf|split; [exact Hcf|]]]]].
    + rewrite Hold. destruct (files s !! p); subst f2; reflexivity.
    + rewrite Hof. destruct (files s !! p); subst f2; reflexivity.
Qed.

(** For a Move home given as a canonical path, after a successful call the
    credential file holds the rendering of the document obtained by merging
    the token into the parsed old contents of the file ([""] when the file
    did not exist before the call). *)
Theorem save_credential_ok_contents parse render (c : ctx) (t : string) tm (s s' : fs)
    (h : string) :
  resolve_home c tm = inl h ->
  canonical_path h = true ->
  fs_canonical s = true ->
  save_credential parse render c t tm s = Ok tt s' ->
  exists old d0 d1 f,
    old = match files s !! credential_path_of h with
          | Some f0 => contents f0
          | None => ""
          end
    /\ parse old = inl d0 /\ merge_token d0 t = Some d1
    /\ files s' !! credential_path_of h = Some f /\ contents f = render d1.
Proof.
  intros Hres _ _ Hsave.
  destruct (save_credential_ok_facts _ _ _ _ _ _ _ _ Hres Hsave)
    as (_ & _ & old & d0 & d1 & f & Hold & Hp & Hm & Hf & Hc & _).
  exists old, d0, d1, f. auto.
Qed.

Lemma save_credential_ok_contents_witness :
  exists old d0 d1 f,
    old = match files fs_version !! credential_path_of sample_home with
          | Some f0 => contents f0
          | None => ""
          end
    /\ sample_parse old = inl d0 /\ merge_token d0 "tok" = Some d1
    /\ files (outcome_fs (save_credential sample_parse sample_render sample_ctx "tok" None
                                         fs_version))
         !! credential_path_of sample_home = Some f
    /\ contents f = sample_render d1.
Proof.
  apply (save_credential_ok_contents sample_parse sample_render sample_ctx "tok" None
           fs_version); vm_compute; reflexivity.
Defined.

(** For a Move home given as a canonical path, a successful call changes
    nothing but the directories of the Move home
    (every prefix directory of it is added, none removed) and the
    credential file; the credential file keeps its owner, or belongs to the
    caller when the call created it. *)
Theorem save_credential_ok_frame parse render (c : ctx) (t : string) tm (s s' : fs)
    (h : string) :
  resolve_home c tm = inl h ->
  canonical_path h = true ->
  fs_canonical s = true ->
  save_credential parse render c t tm s = Ok tt s' ->
  (forall d, d ∈ dirs s' <-> d ∈ dirs s \/ In d (dir_chain h))
  /\ (forall q, q <> credential_path_of h -> files s' !! q = files s !! q)
  /\ exists f, files s' !! credential_path_of h = Some f
       /\ owner f = match files s !! credential_path_of h with
                    | Some f0 => owner f0
                    | None => uid c
                    end.
Proof.
  intros Hres _ _ Hsave.
  destruct (save_credential_ok_facts _ _ _ _ _ _ _ _ Hres Hsave)
    as (Hd & Hq & _ & _ & _ & f & _ & _ & _ & Hf & _ & Ho).
  split; [exact Hd|]. split; [exact Hq|]. exists f. split; assumption.
Qed.

Lemma save_credential_ok_frame_witness :
  (forall d, d ∈ dirs (outcome_fs (save_credential sample_parse sample_render sample_ctx
                                       "tok" None fs_fresh))
             <-> d ∈ dirs fs_fresh \/ In d (dir_chain sample_home))
  /\ (forall q, q <> credential_path_of sample_home ->
        files (outcome_fs (save_credential sample_parse sample_render sample_ctx
                             "tok" None fs_fresh)) !! q = files fs_fresh !! q)
  /\ exists f, files (outcome_fs (save_credential sample_parse sample_render sample_ctx
                                    "tok" None fs_fresh)) !! credential_path_of sample_home
               = Some f
       /\ owner f = match files fs_fresh !! credential_path_of sample_home with
                    | Some f0 => owner f0
                    | None => uid sample_ctx
                    end.
Proof.
  apply (save_credential_ok_frame sample_parse sample_render sample_ctx "tok" None fs_fresh);
    vm_compute; reflexivity.
Defined.

(** With [MOVE_HOME] set to the empty string (and no test mode) the empty
    string is taken as the Move home: [create_dir_all("")] does nothing and
    the token is written to [/credential.toml] at the root of the file
    system; no directory is created and no other file changes. *)
Theorem save_credential_empty_move_home parse render (c : ctx) (t : string) (s s' : fs) :
  env c !! "MOVE_HOME" = Some "" ->
  save_credential parse render c t None s = Ok tt s' ->
  (forall d, d ∈ dirs s' <-> d ∈ dirs s)
  /\ is_Some (files s' !! "/credential.toml")
  /\ (forall q, q <> "/credential.toml" -> files s' !! q = files s !! q).
Proof.
  intros He Hsave.
  assert (Hres : resolve_home c None = inl "") by (unfold resolve_home; rewrite He; reflexivity).
  destruct (save_credential_ok_facts _ _ _ _ _ _ _ _ Hres Hsave)
    as (Hd & Hq & _ & _ & _ & f & _ & _ & _ & Hf & _).
  split; [|split].
  - intros d. rewrite Hd. simpl. tauto.
  - exists f. exact Hf.
  - exact Hq.
Qed.

Lemma save_credential_empty_move_home_witness :
  (forall d, d ∈ dirs (outcome_fs (save_credential sample_parse sample_render empty_home_ctx
                                       "tok" None (mkFs ∅ ∅)))
             <-> d ∈ dirs (mkFs ∅ ∅))
  /\ is_Some (files (outcome_fs (save_credential sample_parse sample_render empty_home_ctx
                                   "tok" None (mkFs ∅ ∅))) !! "/credential.toml")
  /\ (forall q, q <> "/credential.toml" ->
        files (outcome_fs (save_credential sample_parse sample_render empty_home_ctx
                             "tok" None (mkFs ∅ ∅))) !! q = files (mkFs ∅ ∅) !! q).
Proof.
  apply (save_credential_empty_move_home sample_parse sample_render empty_home_ctx "tok"
           (mkFs ∅ ∅)); vm_compute; reflexivity.
Defined.

(** A credential file that is not valid TOML is never overwritten: for a
    Move home given as a canonical path, the call never succeeds and, however
    it stops, every file is left as it was. *)
Theorem save_credential_parse_error_keeps_file parse render (c : ctx) (t : string) tm
    (s : fs) (h : string) (f0 : file) (e : string) :
  resolve_home c tm = inl h ->
  canonical_path h = true ->
  fs_canonical s = true ->
  files s !! credential_path_of h = Some f0 ->
  parse (contents f0) = inr e ->
  match save_credential parse render c t tm s with
  | Ok _ _ => False
  | Err _ s' | Panic _ s' => files s' = files s
  end.
Proof.
  intros Hres _ _ Hf0 Hp.
  unfold save_credential, bind, lift_io, ret, unwrap, expect_io.
  rewrite Hres.
  destruct (create_dir_all c h s) as [[] s1|e'] eqn:Hc; [|reflexivity].
  destruct (create_dir_all_ok _ _ _ _ _ Hc) as (Hf1 & _ & _).
  set (p := credential_path_of h) in *.
  assert (He : path_exists p s1 = true).
  { unfold path_exists. apply orb_true_iff. right. apply bool_decide_eq_true.
    rewrite Hf1, Hf0. eauto. }
  rewrite He. simpl.
  destruct (read_to_string c p s1) as [old s3|e'] eqn:Hr; [|exact Hf1].
  pose proof (read_to_string_state _ _ _ _ _ Hr) as ->.
  destruct (read_to_string_ok _ _ _ _ _ Hr) as (_ & f & Hf & ->).
  rewrite Hf1, Hf0 in Hf. injection Hf as <-.
  rewrite Hp. exact Hf1.
Qed.

Lemma save_credential_parse_error_keeps_file_witness :
  match save_credential sample_parse sample_render sample_ctx "tok" None fs_bad_toml with
  | Ok _ _ => False
  | Err _ s' | Panic _ s' => files s' = files fs_bad_toml
  end.
Proof.
  apply (save_credential_parse_error_keeps_file sample_parse sample_render sample_ctx "tok"
           None fs_bad_toml sample_home (mkFile "x" 384 1000) "unsupported syntax");
    vm_compute; reflexivity.
Defined.

(* ================================================================== *)
(** * Further properties of the token prompt and of the command *)

Lemma string_app_assoc (a b d : string) :
  (a ++ (b ++ d) = (a ++ b) ++ d)%string.
Proof.
  induction a as [|ch a IH]; [reflexivity|].
  change (String ch (a ++ (b ++ d)) = String ch ((a ++ b) ++ d))%string.
  rewrite IH. reflexivity.
Qed.

Lemma string_app_nil_r (a : string) : (a ++ "")%string = a.
Proof.
  induction a as [|ch a IH]; [reflexivity|].
  change (String ch (a ++ "") = String ch a)%string. rewrite IH. reflexivity.
Qed.

Lemma pop_if_cases (ch : ascii) (l : string) :
  pop_if ch l = l \/ (pop_if ch l ++ String ch EmptyString)%string = l.
Proof.
  induction l as [|a l IH]; [left; reflexivity|].
  destruct l as [|b l].
  - change (pop_if ch (String a EmptyString))
      with (if Ascii.eqb a ch then EmptyString else String a EmptyString).
    destruct (Ascii.eqb_spec a ch) as [->|_]; [right|left]; reflexivity.
  - change (String a (pop_if ch (String b l)) = String a (String b l)
            \/ String a (pop_if ch (String b l) ++ String ch EmptyString)
               = String a (String b l)).
    destruct IH as [H|H]; [left|right]; rewrite H; reflexivity.
Qed.

(** The token is the line read with only its terminator removed: what
    [strip_line] takes off is one of [""], ["\n"], ["\r"] or ["\r\n"], and
    nothing else of the line (no spaces, no inner characters) is ever
    dropped; the line is rejected (stripped to [""]) exactly when it is one
    of these four terminators by itself. *)
Theorem strip_line_only_terminator (l : string) :
  (exists suf, In suf [""; nl; cr; (cr ++ nl)%string] /\ l = (strip_line l ++ suf)%string)
  /\ (strip_line l = "" <-> In l [""; nl; cr; (cr ++ nl)%string]).
Proof.
  assert (Hsuf : exists suf, In suf [""; nl; cr; (cr ++ nl)%string]
                             /\ l = (strip_line l ++ suf)%string).
  { unfold strip_line.
    destruct (pop_if_cases "010"%char l) as [H1|H1];
      destruct (pop_if_cases "013"%char (pop_if "010"%char l)) as [H2|H2].
    - exists "". split; [left; reflexivity|]. rewrite string_app_nil_r, H2, H1. reflexivity.
    - exists cr. split; [right; right; left; reflexivity|]. unfold cr. rewrite H2, H1. reflexivity.
    - exists nl. split; [right; left; reflexivity|]. unfold nl. rewrite H2. symmetry. exact H1.
    - exists (cr ++ nl)%string. split; [right; right; right; left; reflexivity|].
      rewrite string_app_assoc. unfold cr, nl. rewrite H2, H1. reflexivity. }
  split; [exact Hsuf|]. split.
  - intros Hs. destruct Hsuf as (suf & Hin & Hl). rewrite Hs in Hl. change ("" ++ suf)%string with suf in Hl.
    rewrite Hl. exact Hin.
  - intros Hin. repeat destruct Hin as [<-|Hin]; try reflexivity. destruct Hin.
Qed.

Lemma prompt_loop_blank (n : nat) (ins : list read_result) (out : list string) :
  Forall (fun r => exists chunk, r = ReadOk chunk /\ strip_line chunk = "") ins ->
  prompt_loop n (mkP "" ins out) = inl (mkP "" (drop n ins) (out ++ repeat retry_msg n)).
Proof.
  revert ins out. induction n as [|n IH]; intros ins out Hall.
  - simpl. rewrite app_nil_r. reflexivity.
  - destruct ins as [|r rest].
    + change (prompt_loop (S n) (mkP "" [] out))
        with (prompt_loop n (mkP "" [] (out ++ [retry_msg]))).
      rewrite IH by constructor. rewrite <- app_assoc, !skipn_nil. reflexivity.
    + inversion Hall as [|? ? (chunk & -> & Hs) Hrest]; subst.
      assert (Hstep : prompt_step (mkP "" (ReadOk chunk :: rest) out)
                      = Continue (mkP "" rest (out ++ [retry_msg]))).
      { unfold prompt_step. cbn [read_line line stdin stdout].
        change (String.append "" chunk) with chunk. rewrite Hs. reflexivity. }
      simpl prompt_loop. rewrite Hstep, IH by exact Hrest.
      rewrite <- app_assoc. reflexivity.
Qed.

Lemma token_prompt_spec_none (ins : list read_result) (msgs : list string) :
  token_prompt_spec ins = (msgs, None) ->
  Forall (fun r => exists chunk, r = ReadOk chunk /\ strip_line chunk = "") ins.
Proof.
  revert msgs. induction ins as [|[chunk|e] rest IH]; intros msgs; simpl.
  - constructor.
  - destruct (String.eqb (strip_spec chunk) "") eqn:Hs; [|discriminate].
    destruct (token_prompt_spec rest) as [m r] eqn:Hr. intros H. injection H as _ ->.
    constructor.
    + exists chunk. split; [reflexivity|]. rewrite strip_line_spec.
      apply String.eqb_eq. exact Hs.
    + eapply IH. reflexivity.
  - discriminate.
Qed.

(** The whole command on any input: it prints the token page, then one
    retry message per rejected line; on the first accepted line it calls
    [save_credential] with that token (and [TestMode] built from
    [test_path]), printing [Token for Movey saved.] exactly when the save
    succeeds and returning its error or panic otherwise; a read error ends
    it with that error and no change to the file system; and when the
    input ends before an accepted line it never returns. *)
Theorem handle_login_commands_outcome parse render (c : ctx) (debug_assertions : bool)
    (test_path : option string) (ins : list read_result) (s : fs) :
  match token_prompt_spec ins with
  | (msgs, Some (inl tok)) =>
      forall fuel, (length ins <= fuel)%nat ->
        handle_login_commands parse render fuel c debug_assertions test_path ins s
        = Some (match save_credential parse render c tok
                        (match test_path with
                         | Some p => Some (mkTestMode p)
                         | None => None
                         end) s with
                | Ok _ s' =>
                    (Ok tt s',
                     ([("Please paste the API Token found on "
                        ++ (if debug_assertions then "https://movey-app-staging.herokuapp.com"
                            else "https://movey.net") ++ "/settings/tokens below")%string]
                      ++ msgs) ++ ["Token for Movey saved."])
                | r =>
                    (r,
                     [("Please paste the API Token found on "
                       ++ (if debug_assertions then "https://movey-app-staging.herokuapp.com"
                           else "https://movey.net") ++ "/settings/tokens below")%string]
                     ++ msgs)
                end)
  | (msgs, Some (inr e)) =>
      forall fuel, (length ins <= fuel)%nat ->
        handle_login_commands parse render fuel c debug_assertions test_path ins s
        = Some (Err e s,
                [("Please paste the API Token found on "
                  ++ (if debug_assertions then "https://movey-app-staging.herokuapp.com"
                      else "https://movey.net") ++ "/settings/tokens below")%string]
                ++ msgs)
  | (_, None) =>
      forall fuel,
        handle_login_commands parse render fuel c debug_assertions test_path ins s = None
  end.
Proof.
  pose proof (prompt_loop_follows_spec ins
                [("Please paste the API Token found on "
                  ++ (if debug_assertions then "https://movey-app-staging.herokuapp.com"
                      else "https://movey.net") ++ "/settings/tokens below")%string]) as H.
  destruct (token_prompt_spec ins) as [msgs [[tok|e]|]] eqn:Hspec.
  - intros fuel Hf. unfold handle_login_commands. rewrite (H fuel Hf).
    destruct (save_credential _ _ _ _ _ _) as [[] s'|e s'|m s']; reflexivity.
  - intros fuel Hf. unfold handle_login_commands. rewrite (H fuel Hf). reflexivity.
  - intros fuel. unfold handle_login_commands.
    rewrite prompt_loop_blank by (eapply token_prompt_spec_none; exact Hspec).
    reflexivity.
Qed.

Lemma handle_login_commands_outcome_witness :
  handle_login_commands sample_parse sample_render 2 sample_ctx false None
    [ReadOk (cr ++ nl)%string; ReadOk ("tok" ++ cr ++ nl)%string] fs_fresh
  = Some (match save_credential sample_parse sample_render sample_ctx "tok" None fs_fresh with
          | Ok _ s' =>
              (Ok tt s', (["Please paste the API Token found on https://movey.net/settings/tokens below"]
                          ++ [retry_msg]) ++ ["Token for Movey saved."])
          | r => (r, ["Please paste the API Token found on https://movey.net/settings/tokens below"]
                     ++ [retry_msg])
          end).
Proof.
  pose proof (handle_login_commands_outcome sample_parse sample_render sample_ctx false None
                [ReadOk (cr ++ nl)%string; ReadOk ("tok" ++ cr ++ nl)%string] fs_fresh) as H.
  vm_compute in H. apply H. lia.
Defined.

Lemma prompt_step_blank (chunk : string) (rest : list read_result) (out : list string) :
  strip_line chunk = "" ->
  prompt_step (mkP "" (ReadOk chunk :: rest) out) = Continue (mkP "" rest (out ++ [retry_msg])).
Proof.
  intros Hs. unfold prompt_step. cbn [read_line line stdin stdout].
  change (String.append "" chunk) with chunk. rewrite Hs. reflexivity.
Qed.

Lemma prompt_loop_app (ins rest : list read_result) (msgs : list string)
    (r : string + error) :
  token_prompt_spec ins = (msgs, Some r) ->
  forall n out, (length ins <= n)%nat ->
    prompt_loop n (mkP "" (ins ++ rest) out) = prompt_loop n (mkP "" ins out).
Proof.
  revert msgs. induction ins as [|[chunk|e] ins IH]; intros msgs; simpl.
  - discriminate.
  - destruct (String.eqb (strip_spec chunk) "") eqn:Hs.
    + destruct (token_prompt_spec ins) as [m r'] eqn:Hr. intros H. injection H as _ ->.
      assert (Hb : strip_line chunk = "").
      { rewrite strip_line_spec. apply String.eqb_eq. exact Hs. }
      intros [|n] out Hn; [lia|]. simpl prompt_loop.
      rewrite !prompt_step_blank by exact Hb.
      apply (IH m); [reflexivity|lia].
    + intros _ [|n] out Hn; [lia|]. cbn [prompt_loop]. unfold prompt_step.
      cbn [read_line line stdin stdout]. change (String.append "" chunk) with chunk.
      rewrite strip_line_spec, Hs. reflexivity.
  - intros _ [|n] out Hn; [lia|]. reflexivity.
Qed.

(** The command reads standard input only up to the first accepted line or
    the first read error: whatever input follows changes nothing in what
    it prints, saves or returns. *)
Theorem handle_login_commands_stops_reading parse render (fuel : nat) (c : ctx)
    (debug_assertions : bool) (test_path : option string)
    (ins rest : list read_result) (s : fs) (msgs : list string) (r : string + error) :
  token_prompt_spec ins = (msgs, Some r) ->
  (length ins <= fuel)%nat ->
  handle_login_commands parse render fuel c debug_assertions test_path (ins ++ rest) s
  = handle_login_commands parse render fuel c debug_assertions test_path ins s.
Proof.
  intros Hspec Hf. unfold handle_login_commands.
  rewrite (prompt_loop_app ins rest msgs r Hspec fuel _ Hf). reflexivity.
Qed.

Lemma handle_login_commands_stops_reading_witness :
  handle_login_commands sample_parse sample_render 1 sample_ctx false None
    ([ReadOk ("tok" ++ nl)%string] ++ [ReadErr PermissionDenied]) fs_fresh
  = handle_login_commands sample_parse sample_render 1 sample_ctx false None
      [ReadOk ("tok" ++ nl)%string] fs_fresh.
Proof.
  apply (handle_login_commands_stops_reading sample_parse sample_render 1 sample_ctx false None
           [ReadOk ("tok" ++ nl)%string] [ReadErr PermissionDenied] fs_fresh [] (inl "tok"%string)).
  - vm_compute. reflexivity.
  - simpl. lia.
Defined.

(** The unit tests' helper [setup_move_home] agrees with [save_credential]
    for a non-empty [test_path]: after it sets [TEST_MOVE_HOME], test mode
    resolves to the home it returns, and a successful save writes the
    credential path it returns.  For an empty [test_path] the two part:
    the helper expects [<cwd>/test] while [save_credential] uses [<cwd>]. *)
Theorem setup_move_home_paths (cwd tp : string) (c : ctx) :
  let '(c', (move_home, credential_path)) := setup_move_home cwd c tp in
  (tp <> "" ->
     resolve_home c' (Some (mkTestMode tp)) = inl move_home
     /\ credential_path = credential_path_of move_home
     /\ (forall parse render t s s',
           save_credential parse render c' t (Some (mkTestMode tp)) s = Ok tt s' ->
           is_Some (files s' !! credential_path)))
  /\ (tp = "" ->
        resolve_home c' (Some (mkTestMode tp)) = inl cwd
        /\ move_home = (cwd ++ "/test")%string).
Proof.
  unfold setup_move_home.
  assert (Henv : forall c0 : ctx, env (mkCtx (uid c0) (umask c0) (unix c0)
                                        (<[ "TEST_MOVE_HOME" := cwd ]> (env c0)))
                                  !! "TEST_MOVE_HOME" = Some cwd).
  { intros c0. apply lookup_insert_eq. }
  split.
  - intros Htp.
    assert (Hres : resolve_home (mkCtx (uid c) (umask c) (unix c)
                                   (<[ "TEST_MOVE_HOME" := cwd ]> (env c)))
                     (Some (mkTestMode tp)) = inl (cwd ++ tp)%string).
    { unfold resolve_home. rewrite Henv. cbn [test_path].
      destruct (String.eqb_spec tp "") as [->|_]; [contradiction|reflexivity]. }
    destruct (String.eqb_spec tp "") as [->|_]; [contradiction|]. cbn [negb].
    split; [exact Hres|]. split; [reflexivity|].
    intros parse render t s s' Hsave.
    destruct (save_credential_ok_facts _ _ _ _ _ _ _ _ Hres Hsave)
      as (_ & _ & _ & _ & _ & f & _ & _ & _ & Hf & _).
    exists f. exact Hf.
  - intros ->. split; [|reflexivity].
    unfold resolve_home. rewrite Henv. reflexivity.
Qed.

(** On unix a call only succeeds for root, for the owner of the existing
    credential file, or when the call itself created the file: the final
    [set_permissions] (an [fchmod]) fails for anybody else, so a credential
    file owned by another user is never reported as saved. *)
Theorem save_credential_ok_caller_owns parse render (c : ctx) (t : string) tm (s s' : fs)
    (h : string) :
  resolve_home c tm = inl h ->
  unix c = true ->
  save_credential parse render c t tm s = Ok tt s' ->
  uid c = 0 \/ match files s !! credential_path_of h with
               | Some f0 => owner f0 = uid c
               | None => True
               end.
Proof.
  intros Hres Hunix Hsave.
  destruct (save_credential_ok_facts _ _ _ _ _ _ _ _ Hres Hsave)
    as (_ & _ & _ & _ & _ & f & _ & _ & _ & Hf & _ & Hof).
  destruct (save_credential_ok_inv _ _ _ _ _ _ _ _ Hsave)
    as (h' & s1 & s2 & old & d & d1 & s4 & Hres' & _ & _ & _ & _ & _ & _ & _ & Hs).
  rewrite Hres in Hres'. injection Hres' as <-.
  pose proof (set_permissions_ok _ _ _ _ _ _ Hs) as Hsp. rewrite Hunix in Hsp.
  destruct Hsp as (f4 & _ & Hown & _ & Hf').
  rewrite Hf', lookup_insert_eq in Hf. injection Hf as <-. cbn [owner] in Hof.
  destruct Hown as [Hroot|Hown]; [left; exact Hroot|right].
  destruct (files s !! credential_path_of h); [|exact I]. congruence.
Qed.

Lemma save_credential_ok_caller_owns_witness :
  uid sample_ctx = 0 \/ match files fs_version !! credential_path_of sample_home with
                        | Some f0 => owner f0 = uid sample_ctx
                        | None => True
                        end.
Proof.
  apply (save_credential_ok_caller_owns sample_parse sample_render sample_ctx "tok" None
           fs_version (outcome_fs (save_credential sample_parse sample_render sample_ctx
                                     "tok" None fs_version)) sample_home);
    vm_compute; reflexivity.
Defined.

(* ================================================================== *)
(** * Bootstrap from a missing or empty credential file *)



